(** * WealthProjector: the growth series, the contribution solver and the
      forward projector of [src/components/InvestmentCalculator.tsx]

    The component keeps its inputs in React state and derives two memoised
    series from them: [calculations] (the historical growth series) and
    [futureProjections] (the strategy-driven projection), the latter calling
    [calculatePerPeriodInvestment] for the custom strategy.

    Number model.  A JavaScript [number] is modelled as an exact rational
    ([Q]): the arithmetic of the source is transcribed operator by operator
    and evaluated without binary64 rounding error.  A division by zero, which
    the source turns into an infinity or a NaN, is outside the model ([Q]
    gives 0); it needs a per-period rate [r] with [(1 + r)^periods = 1] in
    the solver, or an inflation rate of minus one hundred percent a period
    in the recurring series.  The loop counters, [duration] and
    [projectionDuration] are integers ([Z]).  The inputs at which a property
    is refuted use only values that binary64 computes exactly, so they
    evaluate the same way in the running program.  The properties proved
    equate a value with the expression the source computes it by, or compare
    values, or describe the shape of a series; where a sum has to be exact
    or a sign has to be kept they carry the hypothesis that keeps it so
    (whole amounts below 2^53, values below 2^52, inputs that are not
    negative).  The closed forms of the solver round trip in the section on
    the solver are identities of exact arithmetic; they explain the
    overshoot that the concrete scenario exhibits.  The [date] string of a
    growth point depends on the calendar and the locale and is left out of
    the record, as is the start date it is derived from. *)

From Stdlib Require Import QArith Qround Qabs Qminmax Qpower.
From Stdlib Require Import ZArith List Bool Lia Lqa.
Import ListNotations.

Open Scope Q_scope.

(** ** The JavaScript primitives the source calls *)

Module Math.

(** [Math.round]: the nearest integer, halves going up. *)
Definition round (x : Q) : Q := inject_Z (Qfloor (x + (1 # 2))).

Definition floor (x : Q) : Z := Qfloor x.

Definition max (x y : Q) : Q := Qmax x y.

Definition min (x y : Q) : Q := Qmin x y.

Definition abs (x : Q) : Q := Qabs x.

(** [Math.pow] at an integer exponent. *)
Definition pow (x : Q) (n : Z) : Q := Qpower x n.

End Math.

(** [x > y] and [x >= y] on numbers. *)
Definition Qgt_bool (x y : Q) : bool := negb (Qle_bool x y).
Definition Qge_bool (x y : Q) : bool := Qle_bool y x.

(** [for (let i = lo; ...; i++) { body }] running [n] times from [i], with the
    variables the body assigns threaded as [st] and the values it pushes
    collected in order. *)
Fixpoint for_loop {S A : Type} (body : Z -> S -> A * S)
         (n : nat) (i : Z) (st : S) : list A :=
  match n with
  | O => []
  | S n' => let (a, st') := body i st in a :: for_loop body n' (i + 1)%Z st'
  end.

(** The variables after [n] iterations started at counter [i]. *)
Fixpoint for_state {S A : Type} (body : Z -> S -> A * S)
         (n : nat) (i : Z) (st : S) : S :=
  match n with
  | O => st
  | S n' => for_state body n' (i + 1)%Z (snd (body i st))
  end.

(** ** Data model *)

Inductive Frequency := once | daily | weekly | monthly.

Inductive ProjectionFrequency :=
  proj_yearly | proj_monthly | proj_weekly | proj_daily.

Inductive ReinvestmentStrategy :=
| strat_2x
| strat_repeat
| strat_all_in
| strat_double_down
| strat_shield_value
| strat_level_up
| strat_pay_yourself
| strat_capital_protect
| strat_take_salary
| strat_custom.

Module CalculationData.
Record t := mk {
  period : Z;
  totalInvested : Q;
  currentValue : Q;
  profit : Q;
  displayValue : Q
}.
End CalculationData.

Module ProjectionData.
Record t := mk {
  period : Z;
  startValue : Q;
  newCash : Q;
  totalInvested : Q;
  profit : Q;
  afterGrowth : Q;
  cashOut : Q;
  endValue : Q
}.
End ProjectionData.

(** The component's state (the [useState] cells the two series read). *)
Record Inputs := mkInputs {
  investmentAmount : Q;
  roiPercentage : Q;
  duration : Z;
  frequency : Frequency;
  showTotal : bool;
  enableInflation : bool;
  inflationRate : Q;
  projectionFrequency : ProjectionFrequency;
  projectionDuration : Z;
  reinvestmentStrategy : ReinvestmentStrategy;
  levelUpAmount : Q;
  customTargetAmount : Q;
  salaryAmount : Q
}.

(** ** [calculatePerPeriodInvestment] *)

Definition perPeriodRate (annualRate : Q) (freq : ProjectionFrequency) : Q :=
  match freq with
  | proj_monthly => annualRate / 12
  | proj_weekly => annualRate / 52
  | proj_daily => annualRate / 365
  | proj_yearly => annualRate
  end.

Definition calculatePerPeriodInvestment
           (startBalance targetAmount : Q) (periods : Z)
           (annualRate : Q) (freq : ProjectionFrequency) : Q :=
  if (periods <=? 0)%Z || Qle_bool startBalance 0 then 0
  else
    let rate := perPeriodRate annualRate freq in
    if Qeq_bool rate 0 then (targetAmount - startBalance) / inject_Z periods
    else
      let growthFactor := Math.pow (1 + rate) periods in
      let futureValueOfStart := startBalance * growthFactor in
      let amountNeeded := targetAmount - futureValueOfStart in
      let annuityFactor := (growthFactor - 1) / rate in
      amountNeeded / annuityFactor.

(** ** [calculations]: the historical growth series *)

Record GrowthState := mkGrowth {
  g_totalInvested : Q;
  g_currentValue : Q
}.

Section Calculations.

Variable cfg : Inputs.

(** The lump-sum value before rounding at elapsed month [i]. *)
Definition periodValue (i : Z) : Q :=
  let annualRate := roiPercentage cfg / 100 in
  let periodRate := annualRate * (inject_Z i / 12) in
  let periodInflation :=
    if enableInflation cfg
    then 1 - (inflationRate cfg / 100) * (inject_Z i / 12)
    else 1 in
  if (i =? 0)%Z then investmentAmount cfg
  else investmentAmount cfg * (1 + periodRate) * periodInflation.

Definition once_body (i : Z) (st : GrowthState)
  : CalculationData.t * GrowthState :=
  let totalInvested := g_totalInvested st in
  let profit := periodValue i - totalInvested in
  (CalculationData.mk i
     (Math.round totalInvested)
     (Math.round (periodValue i))
     (Math.round profit)
     (if showTotal cfg then Math.round (periodValue i)
      else Math.round profit),
   st).

Definition periodsPerYear : Q :=
  match frequency cfg with
  | daily => 365
  | weekly => 52
  | _ => 12
  end.

Definition totalPeriods : Z :=
  Math.floor ((inject_Z (duration cfg) / 12) * periodsPerYear).

Definition ratePerPeriod : Q := roiPercentage cfg / 100 / periodsPerYear.

Definition inflationPerPeriod : Q :=
  if enableInflation cfg then inflationRate cfg / 100 / periodsPerYear
  else 0.

(** The assignments of one recurring period, before the push. *)
Definition recurring_advance (i : Z) (st : GrowthState) : GrowthState :=
  if (0 <? i)%Z then
    let totalInvested := g_totalInvested st + investmentAmount cfg in
    let currentValue :=
      (g_currentValue st + investmentAmount cfg) * (1 + ratePerPeriod) in
    let currentValue :=
      if enableInflation cfg then currentValue / (1 + inflationPerPeriod)
      else currentValue in
    mkGrowth totalInvested currentValue
  else st.

Definition recurring_body (i : Z) (st : GrowthState)
  : CalculationData.t * GrowthState :=
  let st' := recurring_advance i st in
  let profit := g_currentValue st' - g_totalInvested st' in
  (CalculationData.mk i
     (Math.round (g_totalInvested st'))
     (Math.round (g_currentValue st'))
     (Math.round profit)
     (if showTotal cfg then Math.round (g_currentValue st')
      else Math.round profit),
   st').

Definition calculations : list CalculationData.t :=
  match frequency cfg with
  | once =>
      let months := duration cfg in
      let rate := (roiPercentage cfg / 100) * (inject_Z months / 12) in
      let inflationAdjustment :=
        if enableInflation cfg
        then 1 - (inflationRate cfg / 100) * (inject_Z months / 12)
        else 1 in
      let totalInvested := investmentAmount cfg in
      let currentValue :=
        investmentAmount cfg * (1 + rate) * inflationAdjustment in
      for_loop once_body (Z.to_nat (months + 1)) 0%Z
               (mkGrowth totalInvested currentValue)
  | _ =>
      for_loop recurring_body (Z.to_nat (totalPeriods + 1)) 0%Z
               (mkGrowth 0 0)
  end.

(** [calculations[calculations.length - 1]]: undefined on the empty list. *)
Definition finalData : option CalculationData.t :=
  match calculations with
  | [] => None
  | d :: rest => Some (last rest d)
  end.

End Calculations.

(** ** [futureProjections]: the forward projector *)

(** The two variables the projection loop assigns in every iteration. *)
Record LoopState := mkLoop {
  balance : Q;
  previousProfit : Q
}.

(** What one iteration computes: the values of its locals before rounding
    ([exact], laid out as the record they are pushed into) and the record it
    pushes ([pushed]). *)
Record Iteration := mkIter {
  exact : ProjectionData.t;
  pushed : ProjectionData.t
}.

Section FutureProjections.

Variable cfg : Inputs.
Variable finalData : CalculationData.t.

(** [getConfig()]: the per-period rate and the shield-value rate. *)
Definition rate : Q :=
  match projectionFrequency cfg with
  | proj_monthly => roiPercentage cfg / 100 / 12
  | proj_weekly => roiPercentage cfg / 100 / 52
  | proj_daily => roiPercentage cfg / 100 / 365
  | proj_yearly => roiPercentage cfg / 100
  end.

Definition shieldInflation : Q :=
  match projectionFrequency cfg with
  | proj_monthly => inflationRate cfg / 100 / 12
  | proj_weekly => inflationRate cfg / 100 / 52
  | proj_daily => inflationRate cfg / 100 / 365
  | proj_yearly => inflationRate cfg / 100
  end.

Definition originalPrincipal : Q := investmentAmount cfg.

Definition periods : Z := projectionDuration cfg.

(** The solver call of the custom strategy. *)
Definition customPerPeriodAmount : Q :=
  calculatePerPeriodInvestment
    (CalculationData.currentValue finalData)
    (customTargetAmount cfg)
    periods
    (roiPercentage cfg / 100)
    (projectionFrequency cfg).

(** The [switch (reinvestmentStrategy)]: the values of
    [(newCash, cashOut, endValue)] when it is left; [newCash] and [cashOut]
    stay at their initial [0] where a case does not assign them. *)
Definition apply_strategy (startValue previousProfit : Q) : Q * Q * Q :=
  match reinvestmentStrategy cfg with
  | strat_2x =>
      let newCash := startValue in
      (newCash, 0, (startValue + newCash) * (1 + rate))
  | strat_repeat =>
      let newCash := originalPrincipal in
      (newCash, 0, (startValue + newCash) * (1 + rate))
  | strat_all_in =>
      (0, 0, startValue * (1 + rate))
  | strat_double_down =>
      let newCash := previousProfit in
      (newCash, 0, (startValue + newCash) * (1 + rate))
  | strat_shield_value =>
      let newCash := startValue * shieldInflation in
      (newCash, 0, (startValue + newCash) * (1 + rate))
  | strat_level_up =>
      let newCash := levelUpAmount cfg in
      (newCash, 0, (startValue + newCash) * (1 + rate))
  | strat_pay_yourself =>
      let payYourselfGrowth := startValue * rate in
      let cashOut := payYourselfGrowth / 2 in
      (0, cashOut, startValue + payYourselfGrowth / 2)
  | strat_capital_protect =>
      let excessOverPrincipal := Math.max 0 (startValue - originalPrincipal) in
      let principalProfit := originalPrincipal * rate in
      let cashOut := excessOverPrincipal + principalProfit in
      (0, cashOut, originalPrincipal)
  | strat_take_salary =>
      let afterGrowth := startValue * (1 + rate) in
      let cashOut := Math.min (salaryAmount cfg) afterGrowth in
      (0, cashOut, Math.max 0 (afterGrowth - cashOut))
  | strat_custom =>
      if Qge_bool customPerPeriodAmount 0 then
        let newCash := customPerPeriodAmount in
        (newCash, 0, (startValue + newCash) * (1 + rate))
      else
        let grownValue := startValue * (1 + rate) in
        let cashOut := Math.min (Math.abs customPerPeriodAmount) grownValue in
        (0, cashOut, Math.max 0 (grownValue - cashOut))
  end.

(** The record pushed for the locals [e]: every money field rounded. *)
Definition rounded (e : ProjectionData.t) : ProjectionData.t :=
  ProjectionData.mk
    (ProjectionData.period e)
    (Math.round (ProjectionData.startValue e))
    (Math.round (ProjectionData.newCash e))
    (Math.round (ProjectionData.totalInvested e))
    (Math.round (ProjectionData.profit e))
    (Math.round (ProjectionData.afterGrowth e))
    (Math.round (ProjectionData.cashOut e))
    (Math.round (ProjectionData.endValue e)).

(** The body of [for (let i = 1; i <= periods; i++)]. *)
Definition projection_body (i : Z) (st : LoopState)
  : Iteration * LoopState :=
  if (i =? 1)%Z then
    let year1Invested := balance st in
    let year1Profit := year1Invested * rate in
    let year1EndValue := year1Invested + year1Profit in
    (mkIter
       (ProjectionData.mk i 0 (balance st) year1Invested year1Profit
                          year1EndValue 0 year1EndValue)
       (ProjectionData.mk i 0
                          (Math.round (balance st))
                          (Math.round year1Invested)
                          (Math.round year1Profit)
                          (Math.round year1EndValue)
                          0
                          (Math.round year1EndValue)),
     mkLoop year1EndValue year1Profit)
  else
    let startValue := balance st in
    let '(newCash, cashOut, endValue) :=
      apply_strategy startValue (previousProfit st) in
    let totalInvested := startValue + newCash in
    let actualProfit :=
      if Qgt_bool newCash 0 then totalInvested * rate
      else startValue * rate in
    let afterGrowthValue :=
      if Qgt_bool newCash 0 then totalInvested * (1 + rate)
      else startValue * (1 + rate) in
    let e := ProjectionData.mk i startValue newCash totalInvested
                               actualProfit afterGrowthValue cashOut
                               endValue in
    (mkIter e (rounded e), mkLoop endValue actualProfit).

Definition initialState : LoopState := mkLoop (investmentAmount cfg) 0.

(** Every iteration of the loop, in order. *)
Definition projection_trace : list Iteration :=
  for_loop projection_body (Z.to_nat periods) 1%Z initialState.

(** The loop variables after [k] iterations. *)
Definition state_after (k : nat) : LoopState :=
  for_state projection_body k 1%Z initialState.

(** Iteration number [k] counted from 0, which is period [k + 1]. *)
Definition iteration_at (k : nat) : Iteration :=
  fst (projection_body (1 + Z.of_nat k)%Z (state_after k)).

End FutureProjections.

Definition futureProjections (cfg : Inputs) : option (list ProjectionData.t) :=
  match finalData cfg with
  | None => None
  | Some fd => Some (map pushed (projection_trace cfg fd))
  end.

(** ** Sample inputs *)

(** The component's initial state. *)
Definition defaults : Inputs :=
  mkInputs 1000 10 12 monthly true false 3 proj_yearly 10 strat_all_in
           50 50000 100.

(** [cfg] with another strategy selected. *)
Definition with_strategy (s : ReinvestmentStrategy) (cfg : Inputs) : Inputs :=
  mkInputs (investmentAmount cfg) (roiPercentage cfg) (duration cfg)
           (frequency cfg) (showTotal cfg) (enableInflation cfg)
           (inflationRate cfg) (projectionFrequency cfg)
           (projectionDuration cfg) s (levelUpAmount cfg)
           (customTargetAmount cfg) (salaryAmount cfg).

(** ** The properties, as the specification words them *)

Section StrategyTable.

Variable cfg : Inputs.
Variable fd : CalculationData.t.

(** One row per strategy: what [newCash], [cashOut] and [endValue] are for a
    period that starts at [startValue], the period before having earned
    [previousProfit]. *)
Definition strategy_table
           (startValue previousProfit newCash cashOut endValue : Q) : Prop :=
  let r := rate cfg in
  let principal := investmentAmount cfg in
  let contribution :=
    cashOut == 0 /\ endValue == (startValue + newCash) * (1 + r) in
  match reinvestmentStrategy cfg with
  | strat_2x => newCash == startValue /\ contribution
  | strat_repeat => newCash == principal /\ contribution
  | strat_all_in =>
      newCash == 0 /\ cashOut == 0 /\ endValue == startValue * (1 + r)
  | strat_double_down => newCash == previousProfit /\ contribution
  | strat_shield_value =>
      newCash == startValue * shieldInflation cfg /\ contribution
  | strat_level_up => newCash == levelUpAmount cfg /\ contribution
  | strat_pay_yourself =>
      newCash == 0 /\ cashOut == (startValue * r) / 2
      /\ endValue == startValue + (startValue * r) / 2
  | strat_capital_protect =>
      newCash == 0
      /\ cashOut == Qmax 0 (startValue - principal) + principal * r
      /\ endValue == principal
  | strat_take_salary =>
      newCash == 0
      /\ cashOut == Qmin (salaryAmount cfg) (startValue * (1 + r))
      /\ endValue == Qmax 0 (startValue * (1 + r) - cashOut)
  | strat_custom =>
      let solved :=
        calculatePerPeriodInvestment
          (CalculationData.currentValue fd) (customTargetAmount cfg)
          (projectionDuration cfg) (roiPercentage cfg / 100)
          (projectionFrequency cfg) in
      (0 <= solved -> newCash == solved /\ contribution)
      /\ (solved < 0 ->
          newCash == 0
          /\ cashOut == Qmin (Qabs solved) (startValue * (1 + r))
          /\ endValue == Qmax 0 (startValue * (1 + r) - cashOut))
  end.

(** The derived fields of a period after the first. *)
Definition derived_fields (e : ProjectionData.t) : Prop :=
  let r := rate cfg in
  let startValue := ProjectionData.startValue e in
  let newCash := ProjectionData.newCash e in
  let totalInvested := ProjectionData.totalInvested e in
  totalInvested == startValue + newCash
  /\ (0 < newCash ->
      ProjectionData.profit e == totalInvested * r
      /\ ProjectionData.afterGrowth e == totalInvested * (1 + r))
  /\ (~ 0 < newCash ->
      ProjectionData.profit e == startValue * r
      /\ ProjectionData.afterGrowth e == startValue * (1 + r)).

End StrategyTable.

(** The final point of the historical series of [defaults]. *)
Definition defaults_final : CalculationData.t :=
  CalculationData.mk 12 12000 12670 670 12670.

(** The record pushed for period 1 from a principal and a per-period rate. *)
Definition bootstrap_point (principal r : Q) : ProjectionData.t :=
  ProjectionData.mk 1 0
                    (Math.round principal)
                    (Math.round principal)
                    (Math.round (principal * r))
                    (Math.round (principal + principal * r))
                    0
                    (Math.round (principal + principal * r)).

(** The inflation adjustment and the lump-sum value of the specification. *)
Definition inflationAdjustment (cfg : Inputs) (i : Z) : Q :=
  if enableInflation cfg
  then 1 - (inflationRate cfg / 100) * (inject_Z i / 12)
  else 1.

Definition linear_value (cfg : Inputs) (i : Z) : Q :=
  investmentAmount cfg
  * (1 + (roiPercentage cfg / 100) * (inject_Z i / 12))
  * inflationAdjustment cfg i.

(** The specification's scenario: $1000 once at 10% a year over 12 months. *)
Definition lump_sum_scenario : Inputs :=
  mkInputs 1000 10 12 once true false 3 proj_yearly 10 strat_all_in
           50 50000 100.

(** The identity on the stored fields of a growth point. *)
Definition profit_identity (d : CalculationData.t) : Prop :=
  CalculationData.profit d
  == CalculationData.currentValue d - CalculationData.totalInvested d.

(** The stored profit is within one of the difference of the stored value
    and investment. *)
Definition profit_within_one (d : CalculationData.t) : Prop :=
  Qabs (CalculationData.profit d
        - (CalculationData.currentValue d - CalculationData.totalInvested d))
  <= 1.

(** $100.50 once at 100% a year over 12 months. *)
Definition half_dollar_scenario : Inputs :=
  mkInputs (201 # 2) 100 12 once true false 3 proj_yearly 10 strat_all_in
           50 50000 100.

(** A number without a fractional part. *)
Definition whole (x : Q) : Prop := exists z : Z, x == inject_Z z.

(** [cfg] with the level-up strategy selected and [c] as its amount. *)
Definition with_levelUp (c : Q) (cfg : Inputs) : Inputs :=
  mkInputs (investmentAmount cfg) (roiPercentage cfg) (duration cfg)
           (frequency cfg) (showTotal cfg) (enableInflation cfg)
           (inflationRate cfg) (projectionFrequency cfg)
           (projectionDuration cfg) strat_level_up c
           (customTargetAmount cfg) (salaryAmount cfg).

(** The [endValue] the level-up case computes from [startValue]. *)
Definition level_up_endValue (cfg : Inputs) (fd : CalculationData.t)
           (startValue : Q) : Q :=
  let '(_, _, endValue) :=
    apply_strategy (with_strategy strat_level_up cfg) fd startValue 0 in
  endValue.

(** The level-up rule applied [n] periods in a row from [b]. *)
Fixpoint forward_level_up (cfg : Inputs) (fd : CalculationData.t)
         (n : nat) (b : Q) : Q :=
  match n with
  | O => b
  | S n' => forward_level_up cfg fd n' (level_up_endValue cfg fd b)
  end.

(** Growth first and the fixed amount afterwards, as the withdrawal branch of
    the custom case orders them, [n] periods in a row from [b]. *)
Fixpoint forward_in_arrears (c r : Q) (n : nat) (b : Q) : Q :=
  match n with
  | O => b
  | S n' => forward_in_arrears c r n' (b * (1 + r) + c)
  end.

(** $1000 towards $10000 in two yearly periods at 100%, the level-up amount
    being what the solver returns for it. *)
Definition round_trip_scenario : Inputs :=
  with_levelUp
    (calculatePerPeriodInvestment 1000 10000 2 (100 / 100) proj_yearly)
    (mkInputs 1000 100 0 once true false 3 proj_yearly 2 strat_custom
              50 10000 100).


(** Neither of the two loop variables is negative. *)
Definition state_nonneg (st : LoopState) : Prop :=
  0 <= balance st /\ 0 <= previousProfit st.

(** The claim on one pushed point: both flows zero under all-in, exactly one
    of them non-zero under every other strategy. *)
Definition exactly_one_cash_flow
           (s : ReinvestmentStrategy) (p : ProjectionData.t) : Prop :=
  match s with
  | strat_all_in =>
      ProjectionData.newCash p == 0 /\ ProjectionData.cashOut p == 0
  | _ =>
      (~ ProjectionData.newCash p == 0 /\ ProjectionData.cashOut p == 0)
      \/ (ProjectionData.newCash p == 0 /\ ~ ProjectionData.cashOut p == 0)
  end.

(** One of the two flows of a point is zero. *)
Definition not_both_cash_flows (p : ProjectionData.t) : Prop :=
  ProjectionData.newCash p = 0 \/ ProjectionData.cashOut p = 0.

(** $1000 at 100% a year with a salary of $5000: the balance is used up in
    the second period. *)
Definition exhausted_salary_scenario : Inputs :=
  mkInputs 1000 100 12 monthly true false 3 proj_yearly 5 strat_take_salary
           50 50000 5000.

(** ** The handlers and the summary figures of the component *)

(** [DEFAULT_PROJECTION_DURATIONS]. *)
Definition DEFAULT_PROJECTION_DURATIONS (freq : ProjectionFrequency) : Z :=
  match freq with
  | proj_yearly => 10
  | proj_monthly => 12
  | proj_weekly => 4
  | proj_daily => 30
  end.

(** [handleProjectionFrequencyChange]: the two cells it sets. *)
Definition handleProjectionFrequencyChange
           (freq : ProjectionFrequency) (cfg : Inputs) : Inputs :=
  mkInputs (investmentAmount cfg) (roiPercentage cfg) (duration cfg)
           (frequency cfg) (showTotal cfg) (enableInflation cfg)
           (inflationRate cfg) freq (DEFAULT_PROJECTION_DURATIONS freq)
           (reinvestmentStrategy cfg) (levelUpAmount cfg)
           (customTargetAmount cfg) (salaryAmount cfg).

(** [setCustomTargetAmount(target)]. *)
Definition setCustomTargetAmount (target : Q) (cfg : Inputs) : Inputs :=
  mkInputs (investmentAmount cfg) (roiPercentage cfg) (duration cfg)
           (frequency cfg) (showTotal cfg) (enableInflation cfg)
           (inflationRate cfg) (projectionFrequency cfg)
           (projectionDuration cfg) (reinvestmentStrategy cfg)
           (levelUpAmount cfg) target (salaryAmount cfg).

(** [handleCustomTargetChange]: the inputs and the [customGainPercent] cell
    after the call; the series and the other cells it reads are the ones of
    the render it was created in. *)
Definition handleCustomTargetChange
           (target : Q) (cfg : Inputs) (customGainPercent : Q) : Inputs * Q :=
  match calculations cfg with
  | [] => (setCustomTargetAmount target cfg, customGainPercent)
  | d :: rest =>
      let startBalance := CalculationData.currentValue (last rest d) in
      let perPeriod :=
        calculatePerPeriodInvestment startBalance target
                                     (projectionDuration cfg)
                                     (roiPercentage cfg / 100)
                                     (projectionFrequency cfg) in
      let percentOfBalance := (perPeriod / startBalance) * 100 in
      (setCustomTargetAmount target cfg,
       Math.round (percentOfBalance * 10) / 10)
  end.

(** [list.reduce((sum, p) => sum + f(p), 0)]. *)
Definition reduce_sum {A : Type} (f : A -> Q) (l : list A) : Q :=
  fold_left (fun sum p => sum + f p) l 0.

(** [totalCashOut], [totalNewCash] and [totalProfitFromProjections]: the
    sums over the pushed points, [0] without a projection. *)
Definition totalCashOut (cfg : Inputs) : Q :=
  match futureProjections cfg with
  | Some l => reduce_sum ProjectionData.cashOut l
  | None => 0
  end.

Definition totalNewCash (cfg : Inputs) : Q :=
  match futureProjections cfg with
  | Some l => reduce_sum ProjectionData.newCash l
  | None => 0
  end.

Definition totalProfitFromProjections (cfg : Inputs) : Q :=
  match futureProjections cfg with
  | Some l => reduce_sum ProjectionData.profit l
  | None => 0
  end.

(** [cfg] with the two toggles set. *)
Definition with_toggles (total inflation : bool) (cfg : Inputs) : Inputs :=
  mkInputs (investmentAmount cfg) (roiPercentage cfg) (duration cfg)
           (frequency cfg) total inflation
           (inflationRate cfg) (projectionFrequency cfg)
           (projectionDuration cfg) (reinvestmentStrategy cfg)
           (levelUpAmount cfg) (customTargetAmount cfg) (salaryAmount cfg).

(** Two points that agree field by field as numbers. *)
Definition point_eq (p q : ProjectionData.t) : Prop :=
  ProjectionData.period p = ProjectionData.period q
  /\ ProjectionData.startValue p == ProjectionData.startValue q
  /\ ProjectionData.newCash p == ProjectionData.newCash q
  /\ ProjectionData.totalInvested p == ProjectionData.totalInvested q
  /\ ProjectionData.profit p == ProjectionData.profit q
  /\ ProjectionData.afterGrowth p == ProjectionData.afterGrowth q
  /\ ProjectionData.cashOut p == ProjectionData.cashOut q
  /\ ProjectionData.endValue p == ProjectionData.endValue q.

(** Two loop states that agree as numbers. *)
Definition state_eq (s t : LoopState) : Prop :=
  balance s == balance t /\ previousProfit s == previousProfit t.

(** The recurring series variables after the assignments of period [k]. *)
Definition recurring_state (cfg : Inputs) (k : nat) : GrowthState :=
  for_state (recurring_body cfg) (S k) 0%Z (mkGrowth 0 0).

(** The invested total and the value of the point of index [k] before
    they are rounded: the locals of the lump-sum loop, the variables of the
    recurring one. *)
Definition unrounded_invested (cfg : Inputs) (k : nat) : Q :=
  match frequency cfg with
  | once => investmentAmount cfg
  | _ => g_totalInvested (recurring_state cfg k)
  end.

Definition unrounded_value (cfg : Inputs) (k : nat) : Q :=
  match frequency cfg with
  | once => periodValue cfg (Z.of_nat k)
  | _ => g_currentValue (recurring_state cfg k)
  end.

(** The cases of the strategy switch by what they assign: the ones that
    never assign [cashOut], the ones that never assign [newCash], the ones
    whose [endValue] is the grown total less the cash out as computed, the
    ones whose [endValue] is a sum or product of terms that are not
    negative, and the ones that only add to the balance. *)
Definition never_withdraws (s : ReinvestmentStrategy) : bool :=
  match s with
  | strat_2x | strat_repeat | strat_all_in | strat_double_down
  | strat_shield_value | strat_level_up => true
  | _ => false
  end.

Definition never_contributes (s : ReinvestmentStrategy) : bool :=
  match s with
  | strat_all_in | strat_pay_yourself | strat_capital_protect
  | strat_take_salary => true
  | _ => false
  end.

Definition keeps_the_flow (s : ReinvestmentStrategy) : bool :=
  match s with
  | strat_pay_yourself | strat_capital_protect | strat_custom => false
  | _ => true
  end.

Definition sign_keeping (s : ReinvestmentStrategy) : bool :=
  match s with
  | strat_shield_value | strat_custom => false
  | _ => true
  end.

Definition never_shrinks (s : ReinvestmentStrategy) : bool :=
  match s with
  | strat_2x | strat_repeat | strat_all_in | strat_double_down
  | strat_level_up | strat_pay_yourself => true
  | _ => false
  end.

(** The stored fields of two growth points, the display alias apart. *)
Definition same_figures (a b : CalculationData.t) : Prop :=
  CalculationData.period a = CalculationData.period b
  /\ CalculationData.totalInvested a = CalculationData.totalInvested b
  /\ CalculationData.currentValue a = CalculationData.currentValue b
  /\ CalculationData.profit a = CalculationData.profit b.

(** ** The loop combinator *)

Section ForLoop.

Context {S A : Type}.
Variable body : Z -> S -> A * S.

Lemma for_loop_length (n : nat) :
  forall i st, length (for_loop body n i st) = n.
Proof.
  induction n as [|n IH]; intros i st; simpl; [reflexivity|].
  destruct (body i st) as [a st']; simpl. now rewrite IH.
Qed.

Lemma for_state_succ (k : nat) :
  forall i st,
    for_state body (Datatypes.S k) i st
    = snd (body (i + Z.of_nat k)%Z (for_state body k i st)).
Proof.
  induction k as [|k IH]; intros i st.
  - simpl. now rewrite Z.add_0_r.
  - change (for_state body (Datatypes.S (Datatypes.S k)) i st)
      with (for_state body (Datatypes.S k) (i + 1)%Z (snd (body i st))).
    rewrite IH. simpl for_state.
    now replace (i + 1 + Z.of_nat k)%Z
      with (i + Z.of_nat (Datatypes.S k))%Z by lia.
Qed.

(** The [k]-th value pushed is what the body returns at counter [i + k] on
    the variables left by the first [k] iterations. *)
Lemma for_loop_map (n : nat) :
  forall i st,
    for_loop body n i st
    = map (fun k => fst (body (i + Z.of_nat k)%Z (for_state body k i st)))
          (seq 0 n).
Proof.
  induction n as [|n IH]; intros i st; [reflexivity|].
  simpl for_loop. destruct (body i st) as [a st'] eqn:E.
  rewrite IH. simpl seq. simpl map. rewrite Z.add_0_r, E. simpl fst.
  f_equal. rewrite <- seq_shift, map_map.
  apply map_ext. intros k. simpl for_state. rewrite E. simpl snd.
  now replace (i + 1 + Z.of_nat k)%Z
    with (i + Z.of_nat (Datatypes.S k))%Z by lia.
Qed.

Lemma for_loop_nth (n k : nat) i st :
  (k < n)%nat ->
  nth_error (for_loop body n i st) k
  = Some (fst (body (i + Z.of_nat k)%Z (for_state body k i st))).
Proof.
  intros Hk. rewrite for_loop_map.
  rewrite nth_error_map, nth_error_seq.
  apply Nat.ltb_lt in Hk. now rewrite Hk.
Qed.

(** A property of the variables kept by the body holds of everything the
    loop pushes. *)
Lemma for_loop_invariant (Inv : S -> Prop) (P : A -> Prop) :
  (forall i st, Inv st -> P (fst (body i st)) /\ Inv (snd (body i st))) ->
  forall n i st, Inv st -> Forall P (for_loop body n i st).
Proof.
  intros Hstep. induction n as [|n IH]; intros i st Hst; simpl.
  - constructor.
  - destruct (Hstep i st Hst) as [HP HI].
    destruct (body i st) as [a st']. constructor; [exact HP|].
    apply IH. exact HI.
Qed.

End ForLoop.

(** ** [Math.round] *)

(** Linear arithmetic over [Q] with the injected integers taken as atoms. *)
Ltac hide_inject_Z :=
  repeat match goal with
         | |- context [inject_Z ?z] =>
             let q := fresh "q" in set (q := inject_Z z) in *; clearbody q
         | H : context [inject_Z ?z] |- _ =>
             let q := fresh "q" in set (q := inject_Z z) in *; clearbody q
         end.
Ltac lra_Z := change (inject_Z 1) with 1 in *; hide_inject_Z; lra.

Lemma inject_Z_minus (x y : Z) : inject_Z (x - y) = inject_Z x - inject_Z y.
Proof.
  unfold Z.sub, Qminus. now rewrite inject_Z_plus, inject_Z_opp.
Qed.

Lemma round_inject_Z (z : Z) : Math.round (inject_Z z) = inject_Z z.
Proof.
  unfold Math.round. f_equal.
  unfold Qfloor, Qplus, inject_Z. simpl.
  replace (z * 2 + 1)%Z with (1 + z * 2)%Z by lia.
  rewrite Z.div_add by lia. reflexivity.
Qed.

Lemma round_comp (x y : Q) : x == y -> Math.round x = Math.round y.
Proof.
  intros H. unfold Math.round. f_equal. apply Qfloor_comp. now rewrite H.
Qed.

Lemma round_integer (x : Q) (z : Z) : x == inject_Z z -> Math.round x = inject_Z z.
Proof. intros H. rewrite (round_comp _ _ H). apply round_inject_Z. Qed.

Lemma round_zero (x : Q) : x == 0 -> Math.round x = 0.
Proof. intros H. exact (round_integer x 0%Z H). Qed.

Lemma round_nonneg (x : Q) : 0 <= x -> 0 <= Math.round x.
Proof.
  intros H. unfold Math.round.
  change 0 with (inject_Z 0). rewrite <- Zle_Qle.
  change 0%Z with (Qfloor (inject_Z 0)).
  apply Qfloor_resp_le. change (0 <= x + (1 # 2)). lra.
Qed.

(** Rounding a difference is within one of the difference of the roundings. *)
Lemma round_minus_within_one (x y : Q) :
  Qabs (Math.round (x - y) - (Math.round x - Math.round y)) <= 1.
Proof.
  unfold Math.round.
  pose proof (Qfloor_le (x + (1 # 2))) as L1.
  pose proof (Qlt_floor (x + (1 # 2))) as L2.
  pose proof (Qfloor_le (y + (1 # 2))) as L3.
  pose proof (Qlt_floor (y + (1 # 2))) as L4.
  pose proof (Qfloor_le (x - y + (1 # 2))) as L5.
  pose proof (Qlt_floor (x - y + (1 # 2))) as L6.
  rewrite inject_Z_plus in L2, L4, L6. change (inject_Z 1) with 1 in *.
  set (a := Qfloor (x + (1 # 2))) in *.
  set (b := Qfloor (y + (1 # 2))) in *.
  set (c := Qfloor (x - y + (1 # 2))) in *.
  assert (U : (c - (a - b) < 2)%Z).
  { rewrite Zlt_Qlt, !inject_Z_minus. change (inject_Z 2) with 2. lra_Z. }
  assert (V : (-2 < c - (a - b))%Z).
  { rewrite Zlt_Qlt, !inject_Z_minus. change (inject_Z (-2)) with (-2).
    lra_Z. }
  rewrite <- !inject_Z_minus. rewrite Qabs_Qle_condition.
  change (-(1)) with (inject_Z (-1)). change 1 with (inject_Z 1).
  rewrite <- !Zle_Qle. lia.
Qed.

(** ** Comparisons *)

Lemma Qge_bool_true (x y : Q) : Qge_bool x y = true <-> y <= x.
Proof. unfold Qge_bool. apply Qle_bool_iff. Qed.

Lemma Qge_bool_false (x y : Q) : Qge_bool x y = false <-> x < y.
Proof.
  unfold Qge_bool. split; intros H.
  - apply Qnot_le_lt. intros L. apply Qle_bool_iff in L. congruence.
  - destruct (Qle_bool y x) eqn:E; [|reflexivity].
    apply Qle_bool_iff in E. lra.
Qed.

Lemma Qgt_bool_true (x y : Q) : Qgt_bool x y = true <-> y < x.
Proof.
  unfold Qgt_bool. rewrite negb_true_iff. split; intros H.
  - apply Qnot_le_lt. intros L. apply Qle_bool_iff in L. congruence.
  - destruct (Qle_bool x y) eqn:E; [|reflexivity].
    apply Qle_bool_iff in E. lra.
Qed.

Lemma Qgt_bool_false (x y : Q) : Qgt_bool x y = false <-> x <= y.
Proof.
  unfold Qgt_bool. rewrite negb_false_iff. apply Qle_bool_iff.
Qed.

(** ** The projection loop, iteration by iteration *)

Section ProjectionLoop.

Variable cfg : Inputs.
Variable fd : CalculationData.t.

Lemma projection_trace_iterations :
  projection_trace cfg fd
  = map (iteration_at cfg fd) (seq 0 (Z.to_nat (projectionDuration cfg))).
Proof. unfold projection_trace. now rewrite for_loop_map. Qed.

Lemma projection_trace_nth (k : nat) :
  (k < Z.to_nat (projectionDuration cfg))%nat ->
  nth_error (projection_trace cfg fd) k = Some (iteration_at cfg fd k).
Proof. intros Hk. unfold projection_trace. now rewrite for_loop_nth. Qed.

Lemma state_after_succ (k : nat) :
  state_after cfg fd (S k)
  = snd (projection_body cfg fd (1 + Z.of_nat k)%Z (state_after cfg fd k)).
Proof. unfold state_after. apply for_state_succ. Qed.

(** The first iteration: the bootstrap branch [i === 1]. *)
Lemma projection_body_first (st : LoopState) :
  projection_body cfg fd 1 st
  = (let e := ProjectionData.mk 1 0 (balance st) (balance st)
                                (balance st * rate cfg)
                                (balance st + balance st * rate cfg) 0
                                (balance st + balance st * rate cfg) in
     (mkIter e (rounded e),
      mkLoop (balance st + balance st * rate cfg) (balance st * rate cfg))).
Proof. reflexivity. Qed.

(** The later iterations: the strategy switch. *)
Lemma projection_body_later (i : Z) (st : LoopState) :
  i <> 1%Z ->
  projection_body cfg fd i st
  = (let '(newCash, cashOut, endValue) :=
       apply_strategy cfg fd (balance st) (previousProfit st) in
     let totalInvested := balance st + newCash in
     let actualProfit :=
       if Qgt_bool newCash 0 then totalInvested * rate cfg
       else balance st * rate cfg in
     let afterGrowthValue :=
       if Qgt_bool newCash 0 then totalInvested * (1 + rate cfg)
       else balance st * (1 + rate cfg) in
     let e := ProjectionData.mk i (balance st) newCash totalInvested
                                actualProfit afterGrowthValue cashOut
                                endValue in
     (mkIter e (rounded e), mkLoop endValue actualProfit)).
Proof.
  intros Hi. unfold projection_body.
  destruct (Z.eqb_spec i 1) as [E|_]; [contradiction|reflexivity].
Qed.

(** Every iteration pushes the rounded copy of its locals. *)
Lemma pushed_rounded (i : Z) (st : LoopState) :
  pushed (fst (projection_body cfg fd i st))
  = rounded (exact (fst (projection_body cfg fd i st))).
Proof.
  destruct (Z.eq_dec i 1) as [->|Hi].
  - reflexivity.
  - rewrite (projection_body_later i st Hi).
    destruct (apply_strategy cfg fd (balance st) (previousProfit st))
      as [[newCash cashOut] endValue].
    reflexivity.
Qed.

(** Every iteration leaves its unrounded [endValue] in [balance] and its
    unrounded profit in [previousProfit]. *)
Lemma body_carries (i : Z) (st : LoopState) :
  snd (projection_body cfg fd i st)
  = mkLoop
      (ProjectionData.endValue (exact (fst (projection_body cfg fd i st))))
      (ProjectionData.profit (exact (fst (projection_body cfg fd i st)))).
Proof.
  destruct (Z.eq_dec i 1) as [->|Hi].
  - reflexivity.
  - rewrite (projection_body_later i st Hi).
    destruct (apply_strategy cfg fd (balance st) (previousProfit st))
      as [[newCash cashOut] endValue].
    reflexivity.
Qed.

Lemma state_after_carries (k : nat) :
  state_after cfg fd (S k)
  = mkLoop (ProjectionData.endValue (exact (iteration_at cfg fd k)))
           (ProjectionData.profit (exact (iteration_at cfg fd k))).
Proof. rewrite state_after_succ. apply body_carries. Qed.

(** From the second iteration on [startValue] is the carried [balance]. *)
Lemma later_startValue (i : Z) (st : LoopState) :
  i <> 1%Z ->
  ProjectionData.startValue (exact (fst (projection_body cfg fd i st)))
  = balance st.
Proof.
  intros Hi. rewrite (projection_body_later i st Hi).
  destruct (apply_strategy cfg fd (balance st) (previousProfit st))
    as [[newCash cashOut] endValue].
  reflexivity.
Qed.

Lemma iteration_period (k : nat) :
  ProjectionData.period (exact (iteration_at cfg fd k))
  = (1 + Z.of_nat k)%Z.
Proof.
  unfold iteration_at.
  destruct (Z.eq_dec (1 + Z.of_nat k) 1) as [E|Hi].
  - rewrite E. reflexivity.
  - rewrite (projection_body_later _ _ Hi).
    destruct (apply_strategy cfg fd _ _) as [[newCash cashOut] endValue].
    reflexivity.
Qed.

End ProjectionLoop.

(** ** Period 2 onward: one strategy rule per period *)

Lemma apply_strategy_table (cfg : Inputs) (fd : CalculationData.t)
      (startValue previousProfit : Q) :
  let '(newCash, cashOut, endValue) :=
    apply_strategy cfg fd startValue previousProfit in
  strategy_table cfg fd startValue previousProfit newCash cashOut endValue.
Proof.
  unfold apply_strategy, strategy_table.
  destruct (reinvestmentStrategy cfg); cbv zeta;
    try (repeat split; reflexivity).
  unfold customPerPeriodAmount, periods.
  set (solved := calculatePerPeriodInvestment _ _ _ _ _).
  destruct (Qge_bool solved 0) eqn:E.
  - apply Qge_bool_true in E. split; intros H.
    + repeat split; reflexivity.
    + lra.
  - apply Qge_bool_false in E. split; intros H.
    + lra.
    + repeat split; reflexivity.
Qed.

(** C1. For every period from the second on (iteration k >= 1, period k + 1)
    the loop starts from the unrounded endValue of the period before and its
    newCash, cashOut and endValue are the ones of the row of the selected
    strategy; totalInvested, profit and afterGrowth are derived from them,
    and the record pushed is the rounded copy of these values. *)
Theorem strategy_rule_from_period_2
        (cfg : Inputs) (fd : CalculationData.t) (k : nat) :
  (1 <= k < Z.to_nat (projectionDuration cfg))%nat ->
  let prev := exact (iteration_at cfg fd (k - 1)) in
  let cur := iteration_at cfg fd k in
  let e := exact cur in
  nth_error (projection_trace cfg fd) k = Some cur
  /\ ProjectionData.period e = (Z.of_nat k + 1)%Z
  /\ ProjectionData.startValue e = ProjectionData.endValue prev
  /\ strategy_table cfg fd
       (ProjectionData.startValue e) (ProjectionData.profit prev)
       (ProjectionData.newCash e) (ProjectionData.cashOut e)
       (ProjectionData.endValue e)
  /\ derived_fields cfg e
  /\ pushed cur = rounded e.
Proof.
  intros [Hk1 Hk2]. cbv zeta.
  destruct k as [|k]; [lia|].
  replace (S k - 1)%nat with k by lia.
  split; [now apply projection_trace_nth|].
  split; [rewrite iteration_period; lia|].
  split; [|split; [|split]]; [| | |apply pushed_rounded].
  - unfold iteration_at at 1. rewrite later_startValue by lia.
    now rewrite state_after_carries.
  - change (iteration_at cfg fd (S k))
      with (fst (projection_body cfg fd (1 + Z.of_nat (S k))%Z
                                 (state_after cfg fd (S k)))).
    rewrite state_after_carries.
    set (prev := exact (iteration_at cfg fd k)).
    rewrite projection_body_later by lia. cbn [balance previousProfit].
    pose proof (apply_strategy_table cfg fd (ProjectionData.endValue prev)
                                     (ProjectionData.profit prev)) as T.
    destruct (apply_strategy cfg fd (ProjectionData.endValue prev)
                             (ProjectionData.profit prev))
      as [[newCash cashOut] endValue].
    exact T.
  - change (iteration_at cfg fd (S k))
      with (fst (projection_body cfg fd (1 + Z.of_nat (S k))%Z
                                 (state_after cfg fd (S k)))).
    rewrite projection_body_later by lia.
    destruct (apply_strategy cfg fd _ _) as [[newCash cashOut] endValue].
    unfold derived_fields. cbn.
    split; [reflexivity|].
    destruct (Qgt_bool newCash 0) eqn:G.
    + apply Qgt_bool_true in G. split; intros H.
      * split; reflexivity.
      * contradiction.
    + apply Qgt_bool_false in G. split; intros H.
      * lra.
      * split; reflexivity.
Qed.

Lemma strategy_rule_from_period_2_witness :
  (1 <= 1 < Z.to_nat (projectionDuration defaults))%nat
  /\ ProjectionData.startValue (exact (iteration_at defaults defaults_final 1))
     = ProjectionData.endValue (exact (iteration_at defaults defaults_final 0)).
Proof.
  assert (H : (1 <= 1 < Z.to_nat (projectionDuration defaults))%nat)
    by (vm_compute; lia).
  split; [exact H|].
  exact (proj1 (proj2 (proj2
           (strategy_rule_from_period_2 defaults defaults_final 1 H)))).
Defined.

(** ** The carried balance *)

(** C5. The balance left by every period is the unrounded endValue of that
    period and it is the startValue the next period computes with; what is
    pushed are rounded copies, the pushed startValue of the next period being
    the rounding of the carried balance. *)
Theorem balance_carried_unrounded
        (cfg : Inputs) (fd : CalculationData.t) (k : nat) :
  let cur := iteration_at cfg fd k in
  let next := iteration_at cfg fd (S k) in
  balance (state_after cfg fd (S k)) = ProjectionData.endValue (exact cur)
  /\ ProjectionData.startValue (exact next)
     = ProjectionData.endValue (exact cur)
  /\ pushed cur = rounded (exact cur)
  /\ ProjectionData.endValue (pushed cur)
     = Math.round (ProjectionData.endValue (exact cur))
  /\ ProjectionData.startValue (pushed next)
     = Math.round (ProjectionData.endValue (exact cur))
  /\ projection_trace cfg fd
     = map (iteration_at cfg fd) (seq 0 (Z.to_nat (projectionDuration cfg))).
Proof.
  cbv zeta.
  assert (P : forall j, pushed (iteration_at cfg fd j)
                        = rounded (exact (iteration_at cfg fd j)))
    by (intros j; apply pushed_rounded).
  assert (B : ProjectionData.startValue (exact (iteration_at cfg fd (S k)))
              = ProjectionData.endValue (exact (iteration_at cfg fd k))).
  { unfold iteration_at at 1. rewrite later_startValue by lia.
    now rewrite state_after_carries. }
  split; [now rewrite state_after_carries|].
  split; [exact B|].
  split; [apply P|].
  split; [now rewrite P|].
  split; [rewrite P; cbn; now rewrite B|].
  apply projection_trace_iterations.
Qed.

(** The component's initial state at a 50% return: the fourth period ends on
    a half, which is pushed rounded up and carried as it is. *)
Example carried_balance_keeps_the_fraction :
  let cfg := mkInputs 1000 50 12 monthly true false 3 proj_yearly 10
                      strat_all_in 50 50000 100 in
  ProjectionData.endValue (exact (iteration_at cfg defaults_final 3))
  == 10125 # 2
  /\ ProjectionData.endValue (pushed (iteration_at cfg defaults_final 3))
     == 5063
  /\ ProjectionData.startValue (exact (iteration_at cfg defaults_final 4))
     == 10125 # 2
  /\ ProjectionData.endValue (exact (iteration_at cfg defaults_final 4))
     == 30375 # 4.
Proof. vm_compute. repeat split; reflexivity. Qed.

(** ** The bootstrap period *)

Lemma iteration_at_0 (cfg : Inputs) (fd : CalculationData.t) :
  iteration_at cfg fd 0
  = (let P := investmentAmount cfg in
     let r := rate cfg in
     mkIter (ProjectionData.mk 1 0 P P (P * r) (P + P * r) 0 (P + P * r))
            (bootstrap_point P r)).
Proof. reflexivity. Qed.

Lemma futureProjections_head (cfg : Inputs) (fd : CalculationData.t) :
  finalData cfg = Some fd ->
  (1 <= projectionDuration cfg)%Z ->
  exists rest,
    futureProjections cfg
    = Some (bootstrap_point (investmentAmount cfg) (rate cfg) :: rest).
Proof.
  intros Hfd Hd. unfold futureProjections. rewrite Hfd.
  rewrite projection_trace_iterations.
  destruct (Z.to_nat (projectionDuration cfg)) as [|n] eqn:E; [lia|].
  cbn [seq map]. rewrite iteration_at_0. cbn [pushed].
  eexists. reflexivity.
Qed.

(** C7. Two configurations with the same starting balance and the same
    per-period rate, whatever their strategies and strategy parameters, push
    the same period-1 point: startValue 0, newCash the starting balance,
    totalInvested = newCash, profit = totalInvested * rate,
    endValue = totalInvested + profit, cashOut 0 (rounded when pushed). *)
Theorem period_1_identical_across_strategies
        (cfg1 cfg2 : Inputs) (fd1 fd2 : CalculationData.t) :
  investmentAmount cfg1 = investmentAmount cfg2 ->
  rate cfg1 = rate cfg2 ->
  finalData cfg1 = Some fd1 ->
  finalData cfg2 = Some fd2 ->
  (1 <= projectionDuration cfg1)%Z ->
  (1 <= projectionDuration cfg2)%Z ->
  let e := exact (iteration_at cfg1 fd1 0) in
  iteration_at cfg1 fd1 0 = iteration_at cfg2 fd2 0
  /\ ProjectionData.startValue e = 0
  /\ ProjectionData.newCash e = investmentAmount cfg1
  /\ ProjectionData.totalInvested e = ProjectionData.newCash e
  /\ ProjectionData.profit e = ProjectionData.totalInvested e * rate cfg1
  /\ ProjectionData.endValue e
     = ProjectionData.totalInvested e + ProjectionData.profit e
  /\ ProjectionData.cashOut e = 0
  /\ exists p rest1 rest2,
      p = rounded e
      /\ futureProjections cfg1 = Some (p :: rest1)
      /\ futureProjections cfg2 = Some (p :: rest2).
Proof.
  intros HP Hr Hfd1 Hfd2 Hd1 Hd2. cbv zeta.
  rewrite !iteration_at_0. cbv zeta. cbn [exact].
  split; [now rewrite HP, Hr|].
  repeat (split; [reflexivity|]).
  destruct (futureProjections_head cfg1 fd1 Hfd1 Hd1) as [rest1 E1].
  destruct (futureProjections_head cfg2 fd2 Hfd2 Hd2) as [rest2 E2].
  exists (bootstrap_point (investmentAmount cfg1) (rate cfg1)), rest1, rest2.
  split; [reflexivity|]. split; [exact E1|].
  rewrite E2. now rewrite HP, Hr.
Qed.

Lemma period_1_identical_across_strategies_witness :
  iteration_at (with_strategy strat_take_salary defaults) defaults_final 0
  = iteration_at (with_strategy strat_custom defaults) defaults_final 0.
Proof.
  assert (H : (1 <= projectionDuration defaults)%Z) by (simpl; lia).
  exact (proj1 (period_1_identical_across_strategies
                  (with_strategy strat_take_salary defaults)
                  (with_strategy strat_custom defaults)
                  defaults_final defaults_final
                  eq_refl eq_refl eq_refl eq_refl H H)).
Defined.

(** ** The historical series *)

Lemma periodValue_linear (cfg : Inputs) (i : Z) :
  periodValue cfg i == linear_value cfg i.
Proof.
  unfold periodValue, linear_value, inflationAdjustment.
  destruct (Z.eqb_spec i 0) as [->|_]; [|reflexivity].
  destruct (enableInflation cfg); simpl inject_Z; field.
Qed.

Lemma once_state_fixed (cfg : Inputs) (k : nat) :
  forall i st, for_state (once_body cfg) k i st = st.
Proof.
  induction k as [|k IH]; intros i st; [reflexivity|].
  simpl. apply IH.
Qed.

Lemma calculations_once (cfg : Inputs) :
  frequency cfg = once ->
  calculations cfg
  = map (fun k =>
           fst (once_body cfg (Z.of_nat k) (mkGrowth (investmentAmount cfg)
                  (investmentAmount cfg
                   * (1 + roiPercentage cfg / 100
                          * (inject_Z (duration cfg) / 12))
                   * (if enableInflation cfg
                      then 1 - inflationRate cfg / 100
                               * (inject_Z (duration cfg) / 12)
                      else 1)))))
        (seq 0 (Z.to_nat (duration cfg + 1))).
Proof.
  intros Hf. unfold calculations. rewrite Hf. cbv zeta.
  rewrite for_loop_map. apply map_ext. intros k.
  rewrite once_state_fixed. reflexivity.
Qed.

(** C6. In lump-sum mode the point of elapsed month i, 0 <= i <= duration,
    stores the rounding of a value that is linear in i:
    principal * (1 + annualRate * (i/12)) * inflationAdjustment(i), with
    inflationAdjustment(i) = 1 - inflationRate * (i/12) under inflation and 1
    otherwise; and $1000 at 10% over 12 months without inflation stores
    currentValue 1100 at period 12. *)
Theorem lump_sum_growth_is_linear :
  (forall (cfg : Inputs) (i : Z),
      frequency cfg = once ->
      (0 <= i <= duration cfg)%Z ->
      exists d,
        nth_error (calculations cfg) (Z.to_nat i) = Some d
        /\ CalculationData.period d = i
        /\ CalculationData.currentValue d = Math.round (periodValue cfg i)
        /\ periodValue cfg i == linear_value cfg i
        /\ (enableInflation cfg = true ->
            inflationAdjustment cfg i
            == 1 - (inflationRate cfg / 100) * (inject_Z i / 12))
        /\ (enableInflation cfg = false -> inflationAdjustment cfg i == 1))
  /\ (exists d,
        nth_error (calculations lump_sum_scenario) 12 = Some d
        /\ periodValue lump_sum_scenario 12 == 1100
        /\ CalculationData.currentValue d = 1100).
Proof.
  split.
  - intros cfg i Hf Hi.
    rewrite (calculations_once cfg Hf).
    rewrite nth_error_map, nth_error_seq.
    assert (L : (Z.to_nat i <? Z.to_nat (duration cfg + 1))%nat = true)
      by (apply Nat.ltb_lt; lia).
    rewrite L. cbn [option_map Nat.add]. rewrite Z2Nat.id by lia.
    eexists. split; [reflexivity|]. cbn.
    split; [reflexivity|]. split; [reflexivity|].
    split; [apply periodValue_linear|].
    unfold inflationAdjustment.
    split; intros E; rewrite E; reflexivity.
  - eexists. split; [vm_compute; reflexivity|].
    split; vm_compute; reflexivity.
Qed.

Lemma lump_sum_growth_is_linear_witness :
  exists d,
    nth_error (calculations lump_sum_scenario) 6 = Some d
    /\ CalculationData.currentValue d = 1050.
Proof.
  assert (H : (0 <= 6 <= duration lump_sum_scenario)%Z) by (simpl; lia).
  destruct (proj1 lump_sum_growth_is_linear lump_sum_scenario 6%Z eq_refl H)
    as (d & Hd & _ & Hv & _).
  exists d. split; [exact Hd|]. rewrite Hv. vm_compute. reflexivity.
Defined.

(** ** Rounded profit against the rounded value and investment *)

Lemma once_points (cfg : Inputs) (P : CalculationData.t -> Prop) :
  (forall i st, g_totalInvested st = investmentAmount cfg ->
                P (fst (once_body cfg i st))) ->
  frequency cfg = once ->
  Forall P (calculations cfg).
Proof.
  intros HP Hf. unfold calculations. rewrite Hf. cbv zeta.
  apply (for_loop_invariant (once_body cfg)
           (fun st => g_totalInvested st = investmentAmount cfg)).
  - intros i st Hst. split; [now apply HP|exact Hst].
  - reflexivity.
Qed.

Lemma recurring_points (cfg : Inputs) (Inv : GrowthState -> Prop)
      (P : CalculationData.t -> Prop) :
  Inv (mkGrowth 0 0) ->
  (forall i st, Inv st -> Inv (recurring_advance cfg i st)) ->
  (forall i st, Inv (recurring_advance cfg i st) ->
                P (fst (recurring_body cfg i st))) ->
  frequency cfg <> once ->
  Forall P (calculations cfg).
Proof.
  intros H0 Hadv HP Hf.
  assert (E : calculations cfg
              = for_loop (recurring_body cfg)
                         (Z.to_nat (totalPeriods cfg + 1)) 0%Z (mkGrowth 0 0)).
  { unfold calculations. destruct (frequency cfg); congruence. }
  rewrite E.
  apply (for_loop_invariant (recurring_body cfg) Inv); [|exact H0].
  intros i st Hst. split.
  - apply HP. now apply Hadv.
  - cbn. now apply Hadv.
Qed.

Lemma recurring_state_0 (cfg : Inputs) : recurring_state cfg 0 = mkGrowth 0 0.
Proof. reflexivity. Qed.

Lemma recurring_state_succ (cfg : Inputs) (k : nat) :
  recurring_state cfg (S k)
  = recurring_advance cfg (Z.of_nat (S k)) (recurring_state cfg k).
Proof.
  unfold recurring_state. rewrite (for_state_succ _ (S k)). reflexivity.
Qed.

(** The point of index [k] stores the rounded variables of period [k]. *)
Lemma recurring_point (cfg : Inputs) (k : nat) (d : CalculationData.t) :
  frequency cfg <> once ->
  nth_error (calculations cfg) k = Some d ->
  d = (let st := recurring_state cfg k in
       let profit := g_currentValue st - g_totalInvested st in
       CalculationData.mk (Z.of_nat k)
         (Math.round (g_totalInvested st))
         (Math.round (g_currentValue st))
         (Math.round profit)
         (if showTotal cfg then Math.round (g_currentValue st)
          else Math.round profit)).
Proof.
  intros Hf Hn.
  assert (E : calculations cfg
              = for_loop (recurring_body cfg)
                         (Z.to_nat (totalPeriods cfg + 1)) 0%Z (mkGrowth 0 0)).
  { unfold calculations. destruct (frequency cfg); congruence. }
  rewrite E in Hn.
  assert (L : (k < Z.to_nat (totalPeriods cfg + 1))%nat).
  { rewrite <- (for_loop_length (recurring_body cfg)
                                 (Z.to_nat (totalPeriods cfg + 1)) 0%Z
                                 (mkGrowth 0 0)).
    apply (proj1 (nth_error_Some _ _)). rewrite Hn. discriminate. }
  rewrite for_loop_nth in Hn by exact L. injection Hn as <-.
  unfold recurring_state. rewrite for_state_succ. reflexivity.
Qed.

(** The point of index [k] of the lump-sum series. *)
Lemma once_point (cfg : Inputs) (k : nat) (d : CalculationData.t) :
  frequency cfg = once ->
  nth_error (calculations cfg) k = Some d ->
  d = (let value := periodValue cfg (Z.of_nat k) in
       let profit := value - investmentAmount cfg in
       CalculationData.mk (Z.of_nat k)
         (Math.round (investmentAmount cfg))
         (Math.round value)
         (Math.round profit)
         (if showTotal cfg then Math.round value else Math.round profit)).
Proof.
  intros Hf Hn. rewrite (calculations_once cfg Hf) in Hn.
  rewrite nth_error_map, nth_error_seq in Hn.
  destruct (k <? Z.to_nat (duration cfg + 1))%nat; [|discriminate Hn].
  cbn [option_map Nat.add] in Hn. injection Hn as <-. reflexivity.
Qed.

(** C2, as the code has it.  Every point stores three separate roundings:
    of the invested total, of the value and of their unrounded difference,
    profit = Math.round(value - invested).  The identity
    profit == currentValue - totalInvested on the stored fields holds at
    period 0, where value and invested coincide, and is not kept afterwards;
    as long as value and invested stay within 2^52 the stored profit is
    within one of currentValue - totalInvested. *)
Theorem profit_is_the_rounded_difference
        (cfg : Inputs) (k : nat) (d : CalculationData.t) :
  nth_error (calculations cfg) k = Some d ->
  let value := unrounded_value cfg k in
  let invested := unrounded_invested cfg k in
  CalculationData.totalInvested d = Math.round invested
  /\ CalculationData.currentValue d = Math.round value
  /\ CalculationData.profit d = Math.round (value - invested)
  /\ (k = 0%nat -> CalculationData.profit d = 0 /\ profit_identity d)
  /\ (Qabs value <= 2 ^ 52 -> Qabs invested <= 2 ^ 52 ->
      profit_within_one d).
Proof.
  intros Hn. cbv zeta.
  assert (F : CalculationData.totalInvested d
              = Math.round (unrounded_invested cfg k)
              /\ CalculationData.currentValue d
                 = Math.round (unrounded_value cfg k)
              /\ CalculationData.profit d
                 = Math.round (unrounded_value cfg k
                               - unrounded_invested cfg k)).
  { unfold unrounded_value, unrounded_invested.
    destruct (frequency cfg) eqn:Hf;
      [rewrite (once_point cfg k d Hf Hn)
      | rewrite (recurring_point cfg k d) by (assumption || congruence) ..];
      repeat split. }
  destruct F as (T & V & P).
  split; [exact T|]. split; [exact V|]. split; [exact P|]. split.
  - intros ->.
    assert (E : unrounded_value cfg 0 = unrounded_invested cfg 0).
    { unfold unrounded_value, unrounded_invested.
      destruct (frequency cfg); reflexivity. }
    unfold profit_identity. rewrite T, V, P, E.
    rewrite (round_zero (unrounded_invested cfg 0
                         - unrounded_invested cfg 0)) by ring.
    split; [reflexivity|ring].
  - intros _ _. unfold profit_within_one. rewrite T, V, P.
    apply round_minus_within_one.
Qed.

Lemma profit_is_the_rounded_difference_witness :
  profit_within_one (CalculationData.mk 5 5000 5126 126 5126).
Proof.
  refine (proj2 (proj2 (proj2 (proj2
            (profit_is_the_rounded_difference defaults 5 _ _)))) _ _);
    vm_compute; reflexivity || discriminate.
Defined.

(** The identity on the stored fields fails at period 12 of $100.50 invested
    once at 100%: the point stores totalInvested 101, currentValue 201 and
    profit 101. *)
Lemma rounded_profit_identity_fails :
  ~ (forall (cfg : Inputs) (d : CalculationData.t),
        In d (calculations cfg) -> profit_identity d).
Proof.
  intros H.
  specialize (H half_dollar_scenario (CalculationData.mk 12 101 201 101 201)).
  assert (I : In (CalculationData.mk 12 101 201 101 201)
                 (calculations half_dollar_scenario)).
  { apply (nth_error_In _ 12). vm_compute. reflexivity. }
  specialize (H I). vm_compute in H. discriminate H.
Qed.

(** ** The solver fed back into the level-up rule *)

Lemma level_up_endValue_eq (cfg : Inputs) (fd : CalculationData.t) (b : Q) :
  level_up_endValue cfg fd b = (b + levelUpAmount cfg) * (1 + rate cfg).
Proof. reflexivity. Qed.

Lemma rate_perPeriodRate (cfg : Inputs) :
  rate cfg = perPeriodRate (roiPercentage cfg / 100) (projectionFrequency cfg).
Proof. unfold rate, perPeriodRate. now destruct (projectionFrequency cfg). Qed.

Lemma Qpower_succ (x : Q) (n : nat) :
  x ^ Z.of_nat (S n) == x * x ^ Z.of_nat n.
Proof.
  replace (Z.of_nat (S n)) with (1 + Z.of_nat n)%Z by lia.
  rewrite Qpower_plus' by lia. now rewrite Qpower_1_r.
Qed.

(** The closed form of the level-up loop: every contribution is itself grown
    in the period it is paid in. *)
Lemma forward_level_up_closed (cfg : Inputs) (fd : CalculationData.t)
      (n : nat) :
  ~ rate cfg == 0 ->
  forall b,
    forward_level_up cfg fd n b
    == b * (1 + rate cfg) ^ Z.of_nat n
       + levelUpAmount cfg * (1 + rate cfg)
         * (((1 + rate cfg) ^ Z.of_nat n - 1) / rate cfg).
Proof.
  intros Hr. induction n as [|n IH]; intros b.
  - simpl. field. exact Hr.
  - cbn [forward_level_up]. rewrite IH, level_up_endValue_eq, Qpower_succ.
    field. exact Hr.
Qed.

Lemma forward_in_arrears_closed (c r : Q) (n : nat) :
  ~ r == 0 ->
  forall b,
    forward_in_arrears c r n b
    == b * (1 + r) ^ Z.of_nat n + c * (((1 + r) ^ Z.of_nat n - 1) / r).
Proof.
  intros Hr. induction n as [|n IH]; intros b.
  - simpl. field. exact Hr.
  - cbn [forward_in_arrears]. rewrite IH, Qpower_succ. field. exact Hr.
Qed.

(** What the solver returns outside its guards. *)
Lemma solver_annuity (P T : Q) (n : Z) (annual : Q)
      (freq : ProjectionFrequency) :
  (0 < n)%Z -> 0 < P ->
  let r := perPeriodRate annual freq in
  ~ r == 0 ->
  calculatePerPeriodInvestment P T n annual freq
  == (T - P * (1 + r) ^ n) / (((1 + r) ^ n - 1) / r).
Proof.
  intros Hn HP r Hr. unfold calculatePerPeriodInvestment.
  destruct (Z.leb_spec n 0) as [L|_]; [lia|].
  destruct (Qle_bool P 0) eqn:E; [apply Qle_bool_iff in E; lra|].
  cbn [orb]. fold r.
  destruct (Qeq_bool r 0) eqn:Z0; [apply Qeq_bool_iff in Z0; contradiction|].
  reflexivity.
Qed.

Lemma solver_zero_rate (P T : Q) (n : Z) (annual : Q)
      (freq : ProjectionFrequency) :
  (0 < n)%Z -> 0 < P ->
  perPeriodRate annual freq == 0 ->
  calculatePerPeriodInvestment P T n annual freq == (T - P) / inject_Z n.
Proof.
  intros Hn HP Hr. unfold calculatePerPeriodInvestment.
  destruct (Z.leb_spec n 0) as [L|_]; [lia|].
  destruct (Qle_bool P 0) eqn:E; [apply Qle_bool_iff in E; lra|].
  cbn [orb]. apply Qeq_bool_iff in Hr. rewrite Hr. reflexivity.
Qed.

(** Feeding the solver's amount to the level-up rule for the solver's number
    of periods ends on the target plus one period's growth of everything
    that was contributed. *)
Lemma level_up_round_trip (cfg : Inputs) (fd : CalculationData.t) (P T : Q) :
  let n := projectionDuration cfg in
  let r := rate cfg in
  (0 < n)%Z -> 0 < P -> ~ r == 0 -> ~ (1 + r) ^ n == 1 ->
  levelUpAmount cfg
  == calculatePerPeriodInvestment P T n (roiPercentage cfg / 100)
                                  (projectionFrequency cfg) ->
  forward_level_up cfg fd (Z.to_nat n) P
  == T + r * (T - P * (1 + r) ^ n).
Proof.
  intros n r Hn HP Hr Hg HC.
  rewrite forward_level_up_closed by exact Hr.
  rewrite Z2Nat.id by lia. fold n r. rewrite HC.
  assert (Hr' : ~ perPeriodRate (roiPercentage cfg / 100)
                                (projectionFrequency cfg) == 0)
    by (rewrite <- rate_perPeriodRate; exact Hr).
  pose proof (solver_annuity P T n _ _ Hn HP Hr') as E.
  rewrite <- rate_perPeriodRate in E. fold r in E. rewrite E.
  field. split; [exact Hr|]. intros H. apply Hg. lra.
Qed.

(** At a rate of zero the level-up loop does end on the target. *)
Lemma forward_level_up_zero_rate (cfg : Inputs) (fd : CalculationData.t)
      (n : nat) :
  rate cfg == 0 ->
  forall b,
    forward_level_up cfg fd n b
    == b + inject_Z (Z.of_nat n) * levelUpAmount cfg.
Proof.
  intros Hr. induction n as [|n IH]; intros b.
  - simpl. ring.
  - cbn [forward_level_up]. rewrite IH, level_up_endValue_eq, Hr.
    rewrite Nat2Z.inj_succ. unfold Z.succ. rewrite inject_Z_plus.
    change (inject_Z 1) with 1. ring.
Qed.

Lemma level_up_round_trip_zero_rate
      (cfg : Inputs) (fd : CalculationData.t) (P T : Q) :
  let n := projectionDuration cfg in
  (0 < n)%Z -> 0 < P -> rate cfg == 0 ->
  levelUpAmount cfg
  == calculatePerPeriodInvestment P T n (roiPercentage cfg / 100)
                                  (projectionFrequency cfg) ->
  forward_level_up cfg fd (Z.to_nat n) P == T.
Proof.
  intros n Hn HP Hr HC.
  rewrite forward_level_up_zero_rate by exact Hr.
  rewrite Z2Nat.id by lia. rewrite HC.
  rewrite solver_zero_rate;
    [|exact Hn|exact HP|rewrite <- rate_perPeriodRate; exact Hr].
  field. change 0 with (inject_Z 0). rewrite inject_Z_injective. lia.
Qed.

(** The same amount applied after each period's growth ends on the target. *)
Lemma in_arrears_round_trip (P T : Q) (n : Z) (annual : Q)
      (freq : ProjectionFrequency) :
  let r := perPeriodRate annual freq in
  (0 < n)%Z -> 0 < P -> ~ r == 0 -> ~ (1 + r) ^ n == 1 ->
  forward_in_arrears (calculatePerPeriodInvestment P T n annual freq) r
                     (Z.to_nat n) P
  == T.
Proof.
  intros r Hn HP Hr Hg.
  rewrite forward_in_arrears_closed by exact Hr.
  rewrite Z2Nat.id by lia.
  rewrite solver_annuity by assumption. fold r.
  field. split; [exact Hr|]. intros H. apply Hg. lra.
Qed.

(** C3 at $1000 towards $10000 in two yearly periods at 100%: the solver
    returns 2000 a period, and the level-up rule run for two periods from
    1000 with that amount ends on 16000, not on 10000. *)
Theorem solver_round_trip_overshoots :
  levelUpAmount round_trip_scenario == 2000
  /\ forward_level_up round_trip_scenario defaults_final 2 1000 == 16000
  /\ customTargetAmount round_trip_scenario == 10000
  /\ forward_in_arrears 2000 (rate round_trip_scenario) 2 1000 == 10000.
Proof. vm_compute. repeat split; reflexivity. Qed.

(** The same inputs through the component: a historical series that ends on
    1000 and the custom strategy towards 10000 in two yearly periods at 100%
    push a last point that ends on 8000. *)
Example custom_projection_misses_target :
  let cfg := mkInputs 1000 100 0 once true false 3 proj_yearly 2 strat_custom
                      50 10000 100 in
  option_map (@CalculationData.currentValue) (finalData cfg) = Some 1000
  /\ option_map (map ProjectionData.endValue) (futureProjections cfg)
     = Some [2000; 8000].
Proof. vm_compute. split; reflexivity. Qed.

(** ** The sign of the balance *)

Lemma Qdiv_nonneg (x c : Q) : 0 <= x -> 0 < c -> 0 <= x / c.
Proof. intros Hx Hc. apply Qle_shift_div_l; [exact Hc|lra]. Qed.

Section NonNegative.

Variable cfg : Inputs.
Variable fd : CalculationData.t.

Hypothesis principal_nonneg : 0 <= investmentAmount cfg.
Hypothesis roi_nonneg : 0 <= roiPercentage cfg.
Hypothesis covered : sign_keeping (reinvestmentStrategy cfg) = true.
Hypothesis levelUp_nonneg :
  reinvestmentStrategy cfg = strat_level_up -> 0 <= levelUpAmount cfg.

Lemma rate_nonneg : 0 <= rate cfg.
Proof.
  unfold rate.
  destruct (projectionFrequency cfg);
    repeat (apply Qdiv_nonneg; [|reflexivity]); exact roi_nonneg.
Qed.

(** With a balance and a previous profit that are not negative, the strategy
    switch leaves an [endValue] that is not negative, and so is the new cash
    of the cases that assign it. *)
Lemma apply_strategy_nonneg (startValue previousProfit : Q) :
  0 <= startValue -> 0 <= previousProfit ->
  let '(newCash, cashOut, endValue) :=
    apply_strategy cfg fd startValue previousProfit in
  0 <= newCash /\ 0 <= endValue.
Proof.
  intros Hs Hp. pose proof rate_nonneg as Hr.
  assert (G : forall x, 0 <= x -> 0 <= x * (1 + rate cfg))
    by (intros x Hx; apply Qmult_le_0_compat; lra).
  pose proof covered as Hc. pose proof levelUp_nonneg as Hl.
  unfold apply_strategy.
  destruct (reinvestmentStrategy cfg); cbv zeta; try discriminate Hc.
  - split; [lra|apply G; lra].
  - split; [exact principal_nonneg|apply G; unfold originalPrincipal; lra].
  - split; [lra|now apply G].
  - split; [lra|apply G; lra].
  - specialize (Hl eq_refl). split; [lra|apply G; lra].
  - assert (H : 0 <= startValue * rate cfg / 2)
      by (apply Qdiv_nonneg; [apply Qmult_le_0_compat; lra|reflexivity]).
    set (half := startValue * rate cfg / 2) in *. split; lra.
  - split; [lra|exact principal_nonneg].
  - split; [lra|apply Q.le_max_l].
Qed.

Lemma body_nonneg (i : Z) (st : LoopState) :
  state_nonneg st ->
  0 <= ProjectionData.endValue (exact (fst (projection_body cfg fd i st)))
  /\ state_nonneg (snd (projection_body cfg fd i st)).
Proof.
  intros [Hb Hp]. pose proof rate_nonneg as Hr.
  rewrite body_carries. unfold state_nonneg. cbn [balance previousProfit].
  assert (M : forall x, 0 <= x -> 0 <= x * rate cfg)
    by (intros x Hx; apply Qmult_le_0_compat; lra).
  destruct (Z.eq_dec i 1) as [->|Hi].
  - rewrite projection_body_first. cbn.
    specialize (M _ Hb). repeat split; lra.
  - rewrite projection_body_later by exact Hi.
    pose proof (apply_strategy_nonneg _ _ Hb Hp) as A.
    destruct (apply_strategy cfg fd (balance st) (previousProfit st))
      as [[newCash cashOut] endValue].
    destruct A as [Hn He]. cbn.
    repeat split; try exact He.
    destruct (Qgt_bool newCash 0); apply M; lra.
Qed.

Lemma state_after_nonneg (k : nat) : state_nonneg (state_after cfg fd k).
Proof.
  induction k as [|k IH].
  - split; cbn; [exact principal_nonneg|lra].
  - rewrite state_after_succ. now apply body_nonneg.
Qed.


End NonNegative.





(** ** New cash against cash out *)

Lemma apply_strategy_one_flow (cfg : Inputs) (fd : CalculationData.t)
      (startValue previousProfit : Q) :
  let '(newCash, cashOut, _) :=
    apply_strategy cfg fd startValue previousProfit in
  (newCash = 0 \/ cashOut = 0)
  /\ (reinvestmentStrategy cfg = strat_all_in -> newCash = 0 /\ cashOut = 0).
Proof.
  unfold apply_strategy.
  destruct (reinvestmentStrategy cfg); cbv zeta;
    try (split; [auto|discriminate]).
  - split; auto.
  - destruct (Qge_bool (customPerPeriodAmount cfg fd) 0);
      (split; [auto|discriminate]).
Qed.

Lemma iteration_one_flow (cfg : Inputs) (fd : CalculationData.t) (k : nat) :
  let cur := iteration_at cfg fd k in
  not_both_cash_flows (exact cur)
  /\ not_both_cash_flows (pushed cur)
  /\ (reinvestmentStrategy cfg = strat_all_in -> (1 <= k)%nat ->
      ProjectionData.newCash (exact cur) = 0
      /\ ProjectionData.cashOut (exact cur) = 0
      /\ ProjectionData.newCash (pushed cur) = 0
      /\ ProjectionData.cashOut (pushed cur) = 0).
Proof.
  cbv zeta. unfold not_both_cash_flows, iteration_at.
  rewrite pushed_rounded.
  destruct (Z.eq_dec (1 + Z.of_nat k) 1) as [E|Hi].
  - rewrite E, projection_body_first. cbn.
    split; [now right|]. split; [now right|]. intros _ Hk. lia.
  - rewrite projection_body_later by exact Hi.
    pose proof (apply_strategy_one_flow cfg fd
                  (balance (state_after cfg fd k))
                  (previousProfit (state_after cfg fd k))) as A.
    destruct (apply_strategy cfg fd _ _) as [[newCash cashOut] endValue].
    destruct A as [A1 A2]. cbn.
    split; [exact A1|]. split.
    + destruct A1 as [-> | ->]; [now left|now right].
    + intros Hs _. destruct (A2 Hs) as [-> ->]. repeat split.
Qed.

(** C8, as the code has it.  No pushed point has both newCash and cashOut
    non-zero: one of the two is zero in every period of every strategy,
    before and after rounding; and under all-in both are zero in every
    period from the second on. *)
Theorem never_both_cash_flows (cfg : Inputs) (pts : list ProjectionData.t) :
  futureProjections cfg = Some pts ->
  Forall not_both_cash_flows pts
  /\ (forall fd k, not_both_cash_flows (exact (iteration_at cfg fd k)))
  /\ (reinvestmentStrategy cfg = strat_all_in ->
      forall p, In p pts -> (2 <= ProjectionData.period p)%Z ->
                ProjectionData.newCash p = 0 /\ ProjectionData.cashOut p = 0).
Proof.
  intros E. unfold futureProjections in E.
  destruct (finalData cfg) as [fd|]; [|discriminate].
  injection E as <-. rewrite projection_trace_iterations, map_map.
  split; [|split].
  - apply Forall_forall. intros p Hin. apply in_map_iff in Hin.
    destruct Hin as (k & <- & _). apply iteration_one_flow.
  - intros fd' k. apply iteration_one_flow.
  - intros Hs p Hin Hp. apply in_map_iff in Hin.
    destruct Hin as (k & <- & _).
    destruct (iteration_one_flow cfg fd k) as (_ & _ & A).
    assert (Hk : (1 <= k)%nat).
    { unfold iteration_at in Hp. rewrite pushed_rounded in Hp.
      cbn [rounded ProjectionData.period] in Hp.
      fold (iteration_at cfg fd k) in Hp.
      rewrite iteration_period in Hp. lia. }
    destruct (A Hs Hk) as (_ & _ & N & C). split; assumption.
Qed.

Lemma never_both_cash_flows_witness :
  Forall not_both_cash_flows
         (map pushed
              (projection_trace exhausted_salary_scenario defaults_final)).
Proof.
  refine (proj1 (never_both_cash_flows exhausted_salary_scenario _ _)).
  vm_compute. reflexivity.
Defined.

(** Once the salary has used the balance up, take-salary pushes points with
    newCash and cashOut both zero: period 3 of $1000 at 100% with a salary
    of $5000. *)
Lemma exactly_one_cash_flow_fails :
  ~ (forall (cfg : Inputs) (pts : list ProjectionData.t)
            (p : ProjectionData.t),
        futureProjections cfg = Some pts ->
        In p pts ->
        exactly_one_cash_flow (reinvestmentStrategy cfg) p).
Proof.
  intros H.
  destruct (futureProjections exhausted_salary_scenario) as [pts|] eqn:E;
    [|vm_compute in E; discriminate E].
  specialize (H exhausted_salary_scenario pts
                (ProjectionData.mk 3 0 0 0 0 0 0 0) E).
  vm_compute in E. injection E as <-.
  assert (L : exactly_one_cash_flow strat_take_salary
                                    (ProjectionData.mk 3 0 0 0 0 0 0 0)).
  { apply H. right. right. left. reflexivity. }
  destruct L as [[L _]|[_ L]]; apply L; reflexivity.
Qed.

(** ** The two starting references *)

Lemma finalData_is_last (cfg : Inputs) (fd : CalculationData.t) :
  finalData cfg = Some fd ->
  exists earlier, calculations cfg = earlier ++ [fd].
Proof.
  unfold finalData. destruct (calculations cfg) as [|d rest] eqn:E;
    [discriminate|].
  intros H. injection H as <-.
  exists (removelast (d :: rest)).
  assert (L : last (d :: rest) d = last rest d) by (now destruct rest).
  rewrite <- L. apply app_removelast_last. discriminate.
Qed.

Lemma custom_flows (cfg : Inputs) (fd : CalculationData.t) (k : nat) :
  reinvestmentStrategy cfg = strat_custom ->
  (1 <= k)%nat ->
  let e := exact (iteration_at cfg fd k) in
  let solved := customPerPeriodAmount cfg fd in
  (0 <= solved ->
   ProjectionData.newCash e = solved /\ ProjectionData.cashOut e = 0)
  /\ (solved < 0 ->
      ProjectionData.newCash e = 0
      /\ ProjectionData.cashOut e
         = Math.min (Math.abs solved)
                    (ProjectionData.startValue e * (1 + rate cfg))).
Proof.
  intros Hs Hk. cbv zeta. unfold iteration_at.
  rewrite projection_body_later by lia.
  unfold apply_strategy. rewrite Hs.
  destruct (Qge_bool (customPerPeriodAmount cfg fd) 0) eqn:E; cbn.
  - apply Qge_bool_true in E. split; intros H; [split; reflexivity|lra].
  - apply Qge_bool_false in E. split; intros H; [lra|split; reflexivity].
Qed.

(** C9. The projection loop starts from the investment amount: period 1
    injects it as newCash, whatever the historical series ended on.  The
    custom strategy calls the solver with the currentValue of the last point
    of the historical series as its starting balance, and its flows from
    period 2 on are that result.  The two references differ: the initial
    state of the component ends its historical series on 12670 and starts
    its projection from 1000. *)
Theorem bootstrap_principal_and_solver_final_value :
  (forall (cfg : Inputs) (pts : list ProjectionData.t),
      futureProjections cfg = Some pts ->
      exists fd earlier,
        finalData cfg = Some fd
        /\ calculations cfg = earlier ++ [fd]
        /\ balance (initialState cfg) = investmentAmount cfg
        /\ ProjectionData.newCash (exact (iteration_at cfg fd 0))
           = investmentAmount cfg
        /\ ((1 <= projectionDuration cfg)%Z ->
            exists p rest,
              pts = p :: rest
              /\ ProjectionData.newCash p
                 = Math.round (investmentAmount cfg))
        /\ customPerPeriodAmount cfg fd
           = calculatePerPeriodInvestment
               (CalculationData.currentValue fd) (customTargetAmount cfg)
               (projectionDuration cfg) (roiPercentage cfg / 100)
               (projectionFrequency cfg)
        /\ (reinvestmentStrategy cfg = strat_custom ->
            forall k, (1 <= k)%nat ->
              let e := exact (iteration_at cfg fd k) in
              let solved := customPerPeriodAmount cfg fd in
              (0 <= solved ->
               ProjectionData.newCash e = solved
               /\ ProjectionData.cashOut e = 0)
              /\ (solved < 0 ->
                  ProjectionData.newCash e = 0
                  /\ ProjectionData.cashOut e
                     = Math.min (Math.abs solved)
                                (ProjectionData.startValue e
                                 * (1 + rate cfg)))))
  /\ (finalData defaults = Some defaults_final
      /\ CalculationData.currentValue defaults_final == 12670
      /\ investmentAmount defaults == 1000
      /\ ~ calculatePerPeriodInvestment
             (CalculationData.currentValue defaults_final)
             (customTargetAmount defaults) (projectionDuration defaults)
             (roiPercentage defaults / 100) (projectionFrequency defaults)
           == calculatePerPeriodInvestment
                (investmentAmount defaults)
                (customTargetAmount defaults) (projectionDuration defaults)
                (roiPercentage defaults / 100)
                (projectionFrequency defaults)).
Proof.
  split.
  - intros cfg pts E.
    destruct (finalData cfg) as [fd|] eqn:Hfd;
      [|unfold futureProjections in E; rewrite Hfd in E; discriminate].
    destruct (finalData_is_last cfg fd Hfd) as [earlier Hl].
    exists fd, earlier.
    split; [reflexivity|]. split; [exact Hl|].
    split; [reflexivity|]. split; [reflexivity|].
    split; [|split; [reflexivity|]].
    + intros Hd.
      destruct (futureProjections_head cfg fd Hfd Hd) as [rest Hr].
      rewrite Hr in E. injection E as <-.
      eexists. exists rest. split; reflexivity.
    + intros Hs k Hk. now apply custom_flows.
  - split; [reflexivity|]. split; [reflexivity|]. split; [reflexivity|].
    vm_compute. discriminate.
Qed.

Lemma bootstrap_principal_and_solver_final_value_witness :
  exists fd,
    finalData (with_strategy strat_custom defaults) = Some fd
    /\ ProjectionData.newCash
         (exact (iteration_at (with_strategy strat_custom defaults) fd 0))
       = 1000.
Proof.
  destruct (proj1 bootstrap_principal_and_solver_final_value
                  (with_strategy strat_custom defaults)
                  (map pushed
                       (projection_trace (with_strategy strat_custom defaults)
                                         defaults_final))
                  eq_refl)
    as (fd & _ & Hfd & _ & _ & Hn & _).
  exists fd. split; [exact Hfd|exact Hn].
Defined.

(** ** Take-salary on an empty balance *)

Lemma take_salary_on_zero (cfg : Inputs) (fd : CalculationData.t)
      (i : Z) (st : LoopState) :
  reinvestmentStrategy cfg = strat_take_salary ->
  0 <= salaryAmount cfg ->
  i <> 1%Z ->
  balance st == 0 ->
  let e := exact (fst (projection_body cfg fd i st)) in
  ProjectionData.startValue e == 0
  /\ ProjectionData.newCash e == 0
  /\ ProjectionData.cashOut e == 0
  /\ ProjectionData.endValue e == 0.
Proof.
  intros Hs Hsal Hi Hb. cbv zeta.
  rewrite projection_body_later by exact Hi.
  unfold apply_strategy. rewrite Hs. cbn. unfold Math.min, Math.max.
  set (grown := balance st * (1 + rate cfg)).
  assert (G : grown == 0) by (unfold grown; rewrite Hb; ring).
  assert (C : Qmin (salaryAmount cfg) grown == 0).
  { destruct (Q.min_spec (salaryAmount cfg) grown) as [[L ->]|[_ ->]]; lra. }
  assert (D : Qmax 0 (grown - Qmin (salaryAmount cfg) grown) == 0).
  { destruct (Q.max_spec 0 (grown - Qmin (salaryAmount cfg) grown))
      as [[L ->]|[_ ->]]; lra. }
  split; [exact Hb|]. split; [reflexivity|]. split; [exact C|exact D].
Qed.

Lemma take_salary_stays_zero (cfg : Inputs) (fd : CalculationData.t)
      (k j : nat) :
  reinvestmentStrategy cfg = strat_take_salary ->
  0 <= salaryAmount cfg ->
  (1 <= k)%nat ->
  balance (state_after cfg fd k) == 0 ->
  (k <= j)%nat ->
  balance (state_after cfg fd j) == 0.
Proof.
  intros Hs Hsal Hk Hb Hj. induction Hj as [|j Hj IH]; [exact Hb|].
  rewrite state_after_carries. cbn [balance].
  apply (take_salary_on_zero cfg fd (1 + Z.of_nat j) (state_after cfg fd j));
    try assumption.
  lia.
Qed.

(** C10. Under take-salary with a salary that is not negative, once the
    carried balance entering a period from the second on is zero, that
    period and every later one start at 0, pay out 0 and end at 0, before
    and after rounding, and the balance they carry on is zero. *)
Theorem take_salary_zero_is_absorbing
        (cfg : Inputs) (fd : CalculationData.t) (k : nat) :
  reinvestmentStrategy cfg = strat_take_salary ->
  0 <= salaryAmount cfg ->
  (1 <= k)%nat ->
  balance (state_after cfg fd k) == 0 ->
  forall j, (k <= j)%nat ->
    let cur := iteration_at cfg fd j in
    ProjectionData.startValue (exact cur) == 0
    /\ ProjectionData.cashOut (exact cur) == 0
    /\ ProjectionData.endValue (exact cur) == 0
    /\ ProjectionData.startValue (pushed cur) = 0
    /\ ProjectionData.cashOut (pushed cur) = 0
    /\ ProjectionData.endValue (pushed cur) = 0
    /\ balance (state_after cfg fd (S j)) == 0.
Proof.
  intros Hs Hsal Hk Hb j Hj. cbv zeta.
  pose proof (take_salary_stays_zero cfg fd k j Hs Hsal Hk Hb Hj) as Hbj.
  assert (Hi : (1 + Z.of_nat j)%Z <> 1%Z) by lia.
  destruct (take_salary_on_zero cfg fd _ _ Hs Hsal Hi Hbj)
    as (A & _ & C & D).
  fold (iteration_at cfg fd j) in A, C, D.
  split; [exact A|]. split; [exact C|]. split; [exact D|].
  unfold iteration_at. rewrite pushed_rounded.
  fold (iteration_at cfg fd j). cbn [rounded ProjectionData.startValue
    ProjectionData.cashOut ProjectionData.endValue].
  rewrite (round_zero _ A), (round_zero _ C), (round_zero _ D).
  repeat split. rewrite state_after_carries. exact D.
Qed.

Lemma take_salary_zero_is_absorbing_witness :
  ProjectionData.endValue
    (exact (iteration_at exhausted_salary_scenario defaults_final 4)) == 0.
Proof.
  assert (H1 : 0 <= salaryAmount exhausted_salary_scenario)
    by (vm_compute; discriminate).
  assert (H2 : (1 <= 2)%nat) by lia.
  assert (H3 : balance (state_after exhausted_salary_scenario
                                    defaults_final 2) == 0)
    by (vm_compute; reflexivity).
  assert (H4 : (2 <= 4)%nat) by lia.
  exact (proj1 (proj2 (proj2
           (take_salary_zero_is_absorbing exhausted_salary_scenario
              defaults_final 2 eq_refl H1 H2 H3 4%nat H4)))).
Defined.

(** ** The shape of the two series *)

Lemma Qdiv12_mult (q c : Q) : q / 12 * c == q * (c / 12).
Proof. field. Qed.

Lemma periodsPerYear_cases (cfg : Inputs) :
  periodsPerYear cfg = 365 \/ periodsPerYear cfg = 52
  \/ periodsPerYear cfg = 12.
Proof. unfold periodsPerYear. destruct (frequency cfg); auto. Qed.

Lemma totalPeriods_negative (cfg : Inputs) :
  (totalPeriods cfg < 0 <-> duration cfg < 0)%Z.
Proof.
  unfold totalPeriods, Math.floor.
  set (d := duration cfg).
  assert (P : 1 <= periodsPerYear cfg / 12).
  { destruct (periodsPerYear_cases cfg) as [-> | [-> | ->]];
      vm_compute; discriminate. }
  set (c := periodsPerYear cfg / 12) in *.
  split; intros H.
  - destruct (Z_lt_ge_dec d 0) as [L|G]; [exact L|exfalso].
    assert (0 <= Qfloor (inject_Z d / 12 * periodsPerYear cfg))%Z; [|lia].
    change 0%Z with (Qfloor 0). apply Qfloor_resp_le.
    rewrite Qdiv12_mult. fold c.
    apply Qmult_le_0_compat; [|lra].
    change 0 with (inject_Z 0). rewrite <- Zle_Qle. lia.
  - assert (Qfloor (inject_Z d / 12 * periodsPerYear cfg) <= -1)%Z; [|lia].
    change (-1)%Z with (Qfloor (inject_Z (-1))). apply Qfloor_resp_le.
    rewrite Qdiv12_mult. fold c.
    assert (D : inject_Z d <= -1).
    { change (-1) with (inject_Z (-1)). rewrite <- Zle_Qle. lia. }
    change (inject_Z (-1)) with (-1).
    assert (M : 0 <= (- inject_Z d - 1) * (c - 1))
      by (apply Qmult_le_0_compat; lra).
    assert (E : (- inject_Z d - 1) * (c - 1)
                == - (inject_Z d * c) + inject_Z d - c + 1) by ring.
    rewrite E in M. lra.
Qed.

(** The number of points the historical loop pushes. *)
Lemma calculations_length (cfg : Inputs) :
  length (calculations cfg)
  = Z.to_nat ((match frequency cfg with
               | once => duration cfg
               | _ => totalPeriods cfg
               end) + 1).
Proof.
  unfold calculations.
  destruct (frequency cfg); cbv zeta; apply for_loop_length.
Qed.

(** X1. The historical series has duration + 1 points in lump-sum mode and
    floor(duration / 12 * periodsPerYear) + 1 points in the recurring modes
    (none when that count is not positive), and the point at index k
    carries period k. *)
Theorem historical_series_shape (cfg : Inputs) :
  length (calculations cfg)
  = Z.to_nat ((match frequency cfg with
               | once => duration cfg
               | _ => Math.floor (inject_Z (duration cfg) / 12
                                  * periodsPerYear cfg)
               end) + 1)
  /\ map CalculationData.period (calculations cfg)
     = map Z.of_nat (seq 0 (length (calculations cfg))).
Proof.
  split; [apply calculations_length|].
  rewrite calculations_length. unfold calculations.
  destruct (frequency cfg); cbv zeta;
    rewrite for_loop_map, map_map; apply map_ext; intros k; reflexivity.
Qed.

Lemma finalData_none (cfg : Inputs) :
  finalData cfg = None <-> calculations cfg = [].
Proof.
  unfold finalData. destruct (calculations cfg); split; congruence.
Qed.

Lemma calculations_empty (cfg : Inputs) :
  calculations cfg = [] <-> (duration cfg < 0)%Z.
Proof.
  rewrite <- length_zero_iff_nil, calculations_length.
  pose proof (totalPeriods_negative cfg) as T.
  destruct (frequency cfg); lia.
Qed.

Lemma futureProjections_none (cfg : Inputs) :
  futureProjections cfg = None <-> (duration cfg < 0)%Z.
Proof.
  rewrite <- calculations_empty, <- finalData_none.
  unfold futureProjections. destruct (finalData cfg); split; congruence.
Qed.

(** X2. The projector returns null exactly when the duration is negative:
    the historical series is then empty, in lump-sum and in recurring mode
    alike, and has no final point to start from. *)
Theorem no_projection_iff_negative_duration (cfg : Inputs) :
  futureProjections cfg = None <-> (duration cfg < 0)%Z.
Proof. exact (futureProjections_none cfg). Qed.

Lemma projection_points (cfg : Inputs) (pts : list ProjectionData.t) :
  futureProjections cfg = Some pts ->
  length pts = Z.to_nat (projectionDuration cfg)
  /\ map ProjectionData.period pts
     = map (fun k => (1 + Z.of_nat k)%Z)
           (seq 0 (Z.to_nat (projectionDuration cfg))).
Proof.
  unfold futureProjections. destruct (finalData cfg) as [fd|]; [|discriminate].
  intros E. injection E as <-.
  rewrite projection_trace_iterations, !map_map.
  split; [now rewrite length_map, length_seq|].
  apply map_ext. intros k. unfold iteration_at at 1.
  rewrite pushed_rounded. cbn [rounded ProjectionData.period].
  apply iteration_period.
Qed.

(** X3. A projection has max(0, projectionDuration) points, numbered from 1
    in order, whatever the strategy. *)
Theorem projection_shape (cfg : Inputs) (pts : list ProjectionData.t) :
  futureProjections cfg = Some pts ->
  length pts = Z.to_nat (projectionDuration cfg)
  /\ map ProjectionData.period pts
     = map (fun k => (1 + Z.of_nat k)%Z)
           (seq 0 (Z.to_nat (projectionDuration cfg))).
Proof. exact (projection_points cfg pts). Qed.

Lemma projection_shape_witness :
  length (map pushed (projection_trace defaults defaults_final)) = 10%nat.
Proof.
  exact (proj1 (projection_shape defaults _ eq_refl)).
Defined.

(** ** The recurring series *)

Lemma recurring_totalInvested (cfg : Inputs) (k : nat) :
  g_totalInvested (recurring_state cfg k)
  == inject_Z (Z.of_nat k) * investmentAmount cfg.
Proof.
  induction k as [|k IH].
  - rewrite recurring_state_0. cbn. ring.
  - rewrite recurring_state_succ. unfold recurring_advance.
    destruct (Z.ltb_spec 0 (Z.of_nat (S k))) as [_|L]; [|lia].
    cbn [g_totalInvested]. rewrite IH, Nat2Z.inj_succ.
    unfold Z.succ. rewrite inject_Z_plus. change (inject_Z 1) with 1. ring.
Qed.

(** X4. In the recurring modes, for an investment amount that is a whole
    number and not negative, the point of period k stores k times the
    amount as its totalInvested, as long as that total stays within 2^53:
    nothing is invested at period 0 and one amount is added in every later
    period, with or without inflation. *)
Theorem recurring_totalInvested_is_k_contributions
        (cfg : Inputs) (k : nat) (d : CalculationData.t) :
  frequency cfg <> once ->
  whole (investmentAmount cfg) ->
  0 <= investmentAmount cfg ->
  inject_Z (Z.of_nat k) * investmentAmount cfg <= 2 ^ 53 ->
  nth_error (calculations cfg) k = Some d ->
  CalculationData.totalInvested d
  == inject_Z (Z.of_nat k) * investmentAmount cfg.
Proof.
  intros Hf [z Hz] _ _ Hn. rewrite (recurring_point cfg k d Hf Hn).
  cbv zeta. cbn [CalculationData.totalInvested].
  assert (E : g_totalInvested (recurring_state cfg k)
              == inject_Z (Z.of_nat k * z)).
  { rewrite inject_Z_mult, <- Hz. apply recurring_totalInvested. }
  rewrite (round_integer _ _ E), inject_Z_mult, Hz. reflexivity.
Qed.

Lemma recurring_totalInvested_is_k_contributions_witness :
  CalculationData.totalInvested (CalculationData.mk 7 7000 7237 237 7237)
  == inject_Z (Z.of_nat 7) * investmentAmount defaults.
Proof.
  apply (recurring_totalInvested_is_k_contributions defaults 7);
    [discriminate | exists 1000%Z; reflexivity | vm_compute; discriminate
    | vm_compute; discriminate | vm_compute; reflexivity].
Defined.

Lemma round_monotone (x y : Q) : x <= y -> Math.round x <= Math.round y.
Proof.
  intros H. unfold Math.round. rewrite <- Zle_Qle.
  apply Qfloor_resp_le. lra.
Qed.

Lemma ratePerPeriod_nonneg (cfg : Inputs) :
  0 <= roiPercentage cfg -> 0 <= ratePerPeriod cfg.
Proof.
  intros H. unfold ratePerPeriod, periodsPerYear.
  destruct (frequency cfg);
    repeat (apply Qdiv_nonneg; [|reflexivity]); exact H.
Qed.

(** Without inflation the value of a recurring period is at least what has
    been invested by then. *)
Lemma recurring_value_covers_invested (cfg : Inputs) (k : nat) :
  enableInflation cfg = false ->
  0 <= investmentAmount cfg ->
  0 <= roiPercentage cfg ->
  0 <= g_totalInvested (recurring_state cfg k)
  /\ g_totalInvested (recurring_state cfg k)
     <= g_currentValue (recurring_state cfg k).
Proof.
  intros Hi Ha Hr. pose proof (ratePerPeriod_nonneg cfg Hr) as R.
  induction k as [|k [T V]].
  - rewrite recurring_state_0. cbn. split; lra.
  - rewrite recurring_state_succ. unfold recurring_advance.
    destruct (Z.ltb_spec 0 (Z.of_nat (S k))) as [_|L]; [|lia].
    rewrite Hi. cbn [g_totalInvested g_currentValue].
    set (t := g_totalInvested (recurring_state cfg k)) in *.
    set (v := g_currentValue (recurring_state cfg k)) in *.
    assert (G : 0 <= (v + investmentAmount cfg) * ratePerPeriod cfg)
      by (apply Qmult_le_0_compat; lra).
    assert (E : (v + investmentAmount cfg) * (1 + ratePerPeriod cfg)
                == v + investmentAmount cfg
                   + (v + investmentAmount cfg) * ratePerPeriod cfg) by ring.
    rewrite E. split; lra.
Qed.

(** X5. In the recurring modes without inflation, with an investment amount
    and a return percentage that are not negative, no point shows a loss:
    its stored profit is not negative and its stored currentValue is at
    least its stored totalInvested (the total invested staying within
    2^53). *)
Theorem recurring_never_shows_a_loss
        (cfg : Inputs) (k : nat) (d : CalculationData.t) :
  frequency cfg <> once ->
  enableInflation cfg = false ->
  0 <= investmentAmount cfg ->
  0 <= roiPercentage cfg ->
  inject_Z (Z.of_nat k) * investmentAmount cfg <= 2 ^ 53 ->
  nth_error (calculations cfg) k = Some d ->
  0 <= CalculationData.profit d
  /\ CalculationData.totalInvested d <= CalculationData.currentValue d.
Proof.
  intros Hf Hi Ha Hr _ Hn. rewrite (recurring_point cfg k d Hf Hn).
  cbv zeta. cbn [CalculationData.profit CalculationData.totalInvested
                 CalculationData.currentValue].
  destruct (recurring_value_covers_invested cfg k Hi Ha Hr) as [T V].
  split; [apply round_nonneg; lra|now apply round_monotone].
Qed.

Lemma recurring_never_shows_a_loss_witness :
  0 <= CalculationData.profit (CalculationData.mk 7 7000 7237 237 7237).
Proof.
  refine (proj1 (recurring_never_shows_a_loss defaults 7 _ _ _ _ _ _ _));
    try discriminate; vm_compute; reflexivity || discriminate.
Defined.

(** X6. Every point of the historical series, in both modes, carries as
    displayValue a copy of its stored currentValue when showTotal is on and
    a copy of its stored profit when it is off. *)
Theorem displayValue_is_an_alias (cfg : Inputs) :
  Forall (fun d => CalculationData.displayValue d
                   = if showTotal cfg then CalculationData.currentValue d
                     else CalculationData.profit d)
         (calculations cfg).
Proof.
  destruct (frequency cfg) eqn:Hf;
    [apply once_points; [|exact Hf]; intros i st _
    | apply (recurring_points cfg (fun _ => True));
      try congruence; auto; intros i st _ ..];
    cbn; now destruct (showTotal cfg).
Qed.

(** ** Loops that run side by side *)

Section RelatedLoops.

Context {S1 S2 A1 A2 : Type}.
Variable body1 : Z -> S1 -> A1 * S1.
Variable body2 : Z -> S2 -> A2 * S2.
Variable R : S1 -> S2 -> Prop.
Variable Q : A1 -> A2 -> Prop.

Hypothesis related_step :
  forall i s t, R s t ->
                Q (fst (body1 i s)) (fst (body2 i t))
                /\ R (snd (body1 i s)) (snd (body2 i t)).

Lemma for_loop_related (n : nat) :
  forall i s t, R s t ->
                Forall2 Q (for_loop body1 n i s) (for_loop body2 n i t).
Proof.
  induction n as [|n IH]; intros i s t Hst; simpl; [constructor|].
  destruct (related_step i s t Hst) as [HQ HR].
  destruct (body1 i s) as [a s'], (body2 i t) as [b t'].
  constructor; [exact HQ|]. apply IH. exact HR.
Qed.

End RelatedLoops.

Lemma Forall2_map_eq {A B C : Type} (f : A -> C) (g : B -> C)
      (l : list A) (m : list B) :
  Forall2 (fun a b => f a = g b) l m -> map f l = map g m.
Proof. induction 1; simpl; congruence. Qed.

Lemma rounded_point_eq (p q : ProjectionData.t) :
  point_eq p q -> rounded p = rounded q.
Proof.
  intros (E0 & E1 & E2 & E3 & E4 & E5 & E6 & E7). unfold rounded.
  rewrite E0, (round_comp _ _ E1), (round_comp _ _ E2), (round_comp _ _ E3),
    (round_comp _ _ E4), (round_comp _ _ E5), (round_comp _ _ E6),
    (round_comp _ _ E7).
  reflexivity.
Qed.

(** ** The custom strategy when the solver's guard fires *)

Lemma guarded_solver_zero (P T : Q) (n : Z) (annual : Q)
      (freq : ProjectionFrequency) :
  (n <= 0)%Z \/ P <= 0 ->
  calculatePerPeriodInvestment P T n annual freq = 0.
Proof.
  intros H. unfold calculatePerPeriodInvestment.
  destruct H as [H|H].
  - apply Z.leb_le in H. now rewrite H.
  - apply Qle_bool_iff in H. rewrite H. now rewrite orb_true_r.
Qed.

Lemma guarded_custom_step (cfg : Inputs) (fd : CalculationData.t)
      (i : Z) (s t : LoopState) :
  (projectionDuration cfg <= 0)%Z \/ CalculationData.currentValue fd <= 0 ->
  state_eq s t ->
  point_eq
    (exact (fst (projection_body (with_strategy strat_custom cfg) fd i s)))
    (exact (fst (projection_body (with_strategy strat_all_in cfg) fd i t)))
  /\ state_eq
       (snd (projection_body (with_strategy strat_custom cfg) fd i s))
       (snd (projection_body (with_strategy strat_all_in cfg) fd i t)).
Proof.
  intros Hg [Hb Hp].
  assert (Z0 : customPerPeriodAmount (with_strategy strat_custom cfg) fd = 0)
    by (apply guarded_solver_zero; exact Hg).
  rewrite !body_carries. unfold state_eq, point_eq. cbn [balance previousProfit].
  destruct (Z.eq_dec i 1) as [->|Hi].
  - rewrite !projection_body_first. cbn.
    change (rate (with_strategy strat_custom cfg)) with (rate cfg).
    change (rate (with_strategy strat_all_in cfg)) with (rate cfg).
    rewrite Hb. repeat split; reflexivity.
  - rewrite !projection_body_later by exact Hi.
    unfold apply_strategy.
    cbn [reinvestmentStrategy with_strategy]. rewrite Z0.
    change (Qge_bool 0 0) with true. cbn.
    change (rate (with_strategy strat_custom cfg)) with (rate cfg).
    change (rate (with_strategy strat_all_in cfg)) with (rate cfg).
    rewrite Hb. repeat split; try reflexivity; ring.
Qed.

(** X8. When the solver's guard fires, because the historical series ends
    on a value that is not positive or because the projection has no
    periods, the custom strategy pushes the very points all-in pushes:
    nothing is added and nothing is withdrawn, whatever the target. *)
Theorem guarded_custom_is_all_in (cfg : Inputs) (fd : CalculationData.t) :
  finalData cfg = Some fd ->
  (projectionDuration cfg <= 0)%Z \/ CalculationData.currentValue fd <= 0 ->
  futureProjections (with_strategy strat_custom cfg)
  = futureProjections (with_strategy strat_all_in cfg).
Proof.
  intros Hfd Hg. unfold futureProjections.
  change (finalData (with_strategy strat_custom cfg)) with (finalData cfg).
  change (finalData (with_strategy strat_all_in cfg)) with (finalData cfg).
  rewrite Hfd. f_equal. apply Forall2_map_eq. unfold projection_trace.
  change (periods (with_strategy strat_custom cfg))
    with (periods (with_strategy strat_all_in cfg)).
  apply (for_loop_related _ _ state_eq (fun a b => pushed a = pushed b)).
  - intros i s t Hst.
    destruct (guarded_custom_step cfg fd i s t Hg Hst) as [HP HS].
    split; [|exact HS].
    rewrite !pushed_rounded. now apply rounded_point_eq.
  - split; reflexivity.
Qed.

(** No investment: the historical series ends on 0. *)
Lemma guarded_custom_is_all_in_witness :
  futureProjections
    (with_strategy strat_custom
       (mkInputs 0 10 12 monthly true false 3 proj_yearly 10 strat_all_in
                 50 50000 100))
  = futureProjections
      (with_strategy strat_all_in
         (mkInputs 0 10 12 monthly true false 3 proj_yearly 10 strat_all_in
                   50 50000 100)).
Proof.
  apply (guarded_custom_is_all_in _ (CalculationData.mk 12 0 0 0 0)).
  - vm_compute. reflexivity.
  - right. vm_compute. discriminate.
Defined.

(** ** The flow of one period: invested, grown, paid out *)

(** The locals of a period after the first, from the strategy's triple. *)
Lemma iteration_later (cfg : Inputs) (fd : CalculationData.t) (k : nat) :
  (1 <= k)%nat ->
  exists newCash cashOut endValue,
    apply_strategy cfg fd (balance (state_after cfg fd k))
                   (previousProfit (state_after cfg fd k))
    = (newCash, cashOut, endValue)
    /\ exact (iteration_at cfg fd k)
       = (let startValue := balance (state_after cfg fd k) in
          let totalInvested := startValue + newCash in
          ProjectionData.mk
            (1 + Z.of_nat k) startValue newCash totalInvested
            (if Qgt_bool newCash 0 then totalInvested * rate cfg
             else startValue * rate cfg)
            (if Qgt_bool newCash 0 then totalInvested * (1 + rate cfg)
             else startValue * (1 + rate cfg))
            cashOut endValue).
Proof.
  intros Hk. unfold iteration_at. rewrite projection_body_later by lia.
  destruct (apply_strategy cfg fd _ _) as [[newCash cashOut] endValue].
  exists newCash, cashOut, endValue. split; reflexivity.
Qed.

Lemma clamp_leaves_the_rest (c g : Q) : Qmax 0 (g - Qmin c g) == g - Qmin c g.
Proof. pose proof (Q.le_min_r c g). apply Q.max_r. lra. Qed.

(** What the strategy switch leaves, read as a flow: new cash that is
    positive is grown together with the balance and nothing is paid out;
    without new cash the balance is grown and the cash out is taken from
    it.  Capital-protect keeps to this only from a balance equal to the
    principal. *)
Lemma apply_strategy_flow (cfg : Inputs) (fd : CalculationData.t)
      (startValue previousProfit : Q) :
  reinvestmentStrategy cfg <> strat_capital_protect
  \/ startValue == investmentAmount cfg ->
  let '(newCash, cashOut, endValue) :=
    apply_strategy cfg fd startValue previousProfit in
  (0 < newCash ->
   cashOut == 0 /\ endValue == (startValue + newCash) * (1 + rate cfg))
  /\ (newCash == 0 -> endValue == startValue * (1 + rate cfg) - cashOut).
Proof.
  intros Hs. unfold apply_strategy.
  destruct (reinvestmentStrategy cfg) eqn:S; cbv zeta.
  - split; [intros _; split; reflexivity|intros H; rewrite H; ring].
  - split; [intros _; split; reflexivity|intros H; rewrite H; ring].
  - split; [intros H; lra|intros _; ring].
  - split; [intros _; split; reflexivity|intros H; rewrite H; ring].
  - split; [intros _; split; reflexivity|intros H; rewrite H; ring].
  - split; [intros _; split; reflexivity|intros H; rewrite H; ring].
  - split; [intros H; lra|intros _; field].
  - destruct Hs as [Hs|Hs]; [congruence|].
    split; [intros H; lra|intros _]. unfold originalPrincipal, Math.max.
    assert (M : Qmax 0 (startValue - investmentAmount cfg) == 0)
      by (apply Q.max_l; lra).
    rewrite M, Hs. ring.
  - split; [intros H; lra|intros _]. unfold Math.max, Math.min.
    apply clamp_leaves_the_rest.
  - destruct (Qge_bool (customPerPeriodAmount cfg fd) 0).
    + split; [intros _; split; reflexivity|intros H; rewrite H; ring].
    + split; [intros H; lra|intros _]. unfold Math.max, Math.min.
      apply clamp_leaves_the_rest.
Qed.

(** X10. Under 2x, repeat, all-in, double-down, shield-value, level-up
    and take-salary, with an investment amount and a return percentage that
    are not negative (and, for shield-value, an inflation rate that is not
    negative), every period whose newCash is not negative, the first one
    included, ends on afterGrowth minus cashOut: what has grown and is not
    paid out is carried on. *)
Theorem endValue_is_afterGrowth_minus_cashOut
        (cfg : Inputs) (fd : CalculationData.t) (k : nat) :
  0 <= investmentAmount cfg ->
  0 <= roiPercentage cfg ->
  keeps_the_flow (reinvestmentStrategy cfg) = true ->
  (reinvestmentStrategy cfg = strat_shield_value -> 0 <= inflationRate cfg) ->
  let e := exact (iteration_at cfg fd k) in
  0 <= ProjectionData.newCash e ->
  ProjectionData.endValue e
  == ProjectionData.afterGrowth e - ProjectionData.cashOut e.
Proof.
  intros _ _ Hs _. cbv zeta. destruct k as [|k].
  - intros _. rewrite iteration_at_0. cbn. ring.
  - destruct (iteration_later cfg fd (S k)) as (nc & co & ev & A & E); [lia|].
    rewrite E.
    cbn [ProjectionData.startValue ProjectionData.newCash
         ProjectionData.afterGrowth ProjectionData.cashOut
         ProjectionData.endValue].
    intros Hn.
    assert (Hc : reinvestmentStrategy cfg <> strat_capital_protect)
      by (intros C; rewrite C in Hs; discriminate Hs).
    pose proof (apply_strategy_flow cfg fd
                  (balance (state_after cfg fd (S k)))
                  (previousProfit (state_after cfg fd (S k)))
                  (or_introl Hc)) as F.
    rewrite A in F. destruct F as [F1 F2].
    destruct (Qgt_bool nc 0) eqn:G.
    + apply Qgt_bool_true in G. destruct (F1 G) as [C0 EV].
      rewrite C0, EV. ring.
    + apply Qgt_bool_false in G. apply F2. lra.
Qed.

Lemma endValue_is_afterGrowth_minus_cashOut_witness :
  ProjectionData.endValue
    (exact (iteration_at exhausted_salary_scenario defaults_final 1))
  == ProjectionData.afterGrowth
       (exact (iteration_at exhausted_salary_scenario defaults_final 1))
     - ProjectionData.cashOut
         (exact (iteration_at exhausted_salary_scenario defaults_final 1)).
Proof.
  apply (endValue_is_afterGrowth_minus_cashOut
           exhausted_salary_scenario defaults_final 1);
    try discriminate; try reflexivity; vm_compute; discriminate.
Defined.

(** ** Capital-protect, period by period *)

Lemma capital_protect_later (cfg : Inputs) (fd : CalculationData.t) (k : nat) :
  reinvestmentStrategy cfg = strat_capital_protect ->
  (1 <= k)%nat ->
  let sv := balance (state_after cfg fd k) in
  exact (iteration_at cfg fd k)
  = ProjectionData.mk
      (1 + Z.of_nat k) sv 0 (sv + 0) (sv * rate cfg) (sv * (1 + rate cfg))
      (Qmax 0 (sv - investmentAmount cfg) + investmentAmount cfg * rate cfg)
      (investmentAmount cfg).
Proof.
  intros Hs Hk. cbv zeta.
  destruct (iteration_later cfg fd k Hk) as (nc & co & ev & A & E).
  rewrite E. unfold apply_strategy in A. rewrite Hs in A.
  injection A as <- <- <-. reflexivity.
Qed.

(** X11. Under capital-protect every period from the second on ends on the
    investment amount.  The second period starts from the first period's
    end, amount + amount * rate; from the third period on a period starts
    from the amount, adds no cash and pays out the amount's profit,
    amount * rate. *)
Theorem capital_protect_periods (cfg : Inputs) (fd : CalculationData.t) :
  reinvestmentStrategy cfg = strat_capital_protect ->
  let P := investmentAmount cfg in
  let r := rate cfg in
  (forall k, (1 <= k)%nat ->
             ProjectionData.endValue (exact (iteration_at cfg fd k)) = P)
  /\ ProjectionData.startValue (exact (iteration_at cfg fd 1)) = P + P * r
  /\ (forall k, (2 <= k)%nat ->
                let e := exact (iteration_at cfg fd k) in
                ProjectionData.startValue e = P
                /\ ProjectionData.newCash e = 0
                /\ ProjectionData.cashOut e == P * r).
Proof.
  intros Hs P r.
  assert (A : forall k, (1 <= k)%nat ->
                        ProjectionData.endValue (exact (iteration_at cfg fd k))
                        = P).
  { intros k Hk. now rewrite capital_protect_later. }
  split; [exact A|]. split.
  - rewrite capital_protect_later by (assumption || lia). reflexivity.
  - intros k Hk. cbv zeta. rewrite capital_protect_later by (assumption || lia).
    cbn.
    assert (B : balance (state_after cfg fd k) = P).
    { destruct k as [|k]; [lia|]. rewrite state_after_carries. cbn.
      apply A. lia. }
    rewrite B. split; [reflexivity|]. split; [reflexivity|].
    fold P r. assert (M : Qmax 0 (P - P) == 0) by (apply Q.max_l; lra).
    rewrite M. ring.
Qed.

Lemma capital_protect_periods_witness :
  ProjectionData.endValue
    (exact (iteration_at (with_strategy strat_capital_protect defaults)
                         defaults_final 5))
  = investmentAmount (with_strategy strat_capital_protect defaults).
Proof.
  assert (H : (1 <= 5)%nat) by lia.
  exact (proj1 (capital_protect_periods
                  (with_strategy strat_capital_protect defaults)
                  defaults_final eq_refl) 5%nat H).
Defined.

(** ** The summary cards *)

Lemma last_cons_default {A : Type} (l : list A) (p d : A) :
  last (p :: l) d = last l p.
Proof.
  revert p d. induction l as [|a l IH]; intros p d; [reflexivity|].
  change (last (p :: a :: l) d) with (last (a :: l) d).
  now rewrite !IH.
Qed.

(** Terms that are all zero leave the running sum where it was. *)
Lemma reduce_zeros {A : Type} (f : A -> Q) (l : list A) (a : Q) :
  Forall (fun p => f p == 0) l ->
  fold_left (fun sum p => sum + f p) l a == a.
Proof.
  intros H. revert a. induction H as [|p l Hp _ IH]; intros a.
  - reflexivity.
  - cbn [fold_left]. rewrite IH, Hp. ring.
Qed.

(** The strategies that never assign [cashOut] push a zero cash out in
    every period. *)
Lemma pushed_cashOut_zero (cfg : Inputs) (fd : CalculationData.t) (k : nat) :
  never_withdraws (reinvestmentStrategy cfg) = true ->
  ProjectionData.cashOut (pushed (iteration_at cfg fd k)) == 0.
Proof.
  intros Hs. destruct k as [|k]; [reflexivity|].
  unfold iteration_at at 1. rewrite pushed_rounded. fold (iteration_at cfg fd (S k)).
  destruct (iteration_later cfg fd (S k)) as (nc & co & ev & A & E); [lia|].
  rewrite E. cbn [rounded ProjectionData.cashOut].
  unfold apply_strategy in A.
  destruct (reinvestmentStrategy cfg); try discriminate Hs;
    cbv zeta in A; injection A as _ <- _; reflexivity.
Qed.

(** The strategies that never assign [newCash] push a zero new cash in
    every period after the first. *)
Lemma pushed_newCash_zero (cfg : Inputs) (fd : CalculationData.t) (k : nat) :
  never_contributes (reinvestmentStrategy cfg) = true ->
  (1 <= k)%nat ->
  ProjectionData.newCash (pushed (iteration_at cfg fd k)) == 0.
Proof.
  intros Hs Hk.
  unfold iteration_at at 1. rewrite pushed_rounded. fold (iteration_at cfg fd k).
  destruct (iteration_later cfg fd k Hk) as (nc & co & ev & A & E).
  rewrite E. cbn [rounded ProjectionData.newCash].
  unfold apply_strategy in A.
  destruct (reinvestmentStrategy cfg); try discriminate Hs;
    cbv zeta in A; injection A as <- _ _; reflexivity.
Qed.

(** X12. With a projection of at least one period, the Total Cash Out card
    of a strategy that never withdraws (2x, repeat, all-in, double-down,
    shield-value, level-up) is zero, and the Total New Cash card of a
    strategy that never contributes (all-in, pay-yourself, capital-protect,
    take-salary) is the rounded investment amount, the new cash of the
    first period. *)
Theorem summary_cards_of_one_way_strategies (cfg : Inputs) :
  (0 <= duration cfg)%Z ->
  (1 <= projectionDuration cfg)%Z ->
  (never_withdraws (reinvestmentStrategy cfg) = true ->
   totalCashOut cfg == 0)
  /\ (never_contributes (reinvestmentStrategy cfg) = true ->
      totalNewCash cfg == Math.round (investmentAmount cfg)).
Proof.
  intros Hd Hp. unfold totalCashOut, totalNewCash, futureProjections.
  destruct (finalData cfg) as [fd|] eqn:F.
  2:{ apply finalData_none, calculations_empty in F. lia. }
  rewrite projection_trace_iterations, map_map. unfold reduce_sum. split.
  - intros Hs. apply reduce_zeros, Forall_forall.
    intros p Hin. apply in_map_iff in Hin. destruct Hin as (k & <- & _).
    now apply pushed_cashOut_zero.
  - intros Hs.
    destruct (Z.to_nat (projectionDuration cfg)) as [|n] eqn:E; [lia|].
    cbn [seq map fold_left]. rewrite reduce_zeros.
    + rewrite iteration_at_0. cbn. ring.
    + apply Forall_forall. intros p Hin. apply in_map_iff in Hin.
      destruct Hin as (k & <- & Hk). apply in_seq in Hk.
      apply pushed_newCash_zero; [exact Hs|lia].
Qed.

Lemma summary_cards_of_one_way_strategies_witness :
  totalCashOut (with_strategy strat_all_in defaults) == 0
  /\ totalNewCash (with_strategy strat_all_in defaults) == 1000.
Proof.
  assert (Hd : (0 <= duration (with_strategy strat_all_in defaults))%Z)
    by (vm_compute; discriminate).
  assert (Hp : (1 <= projectionDuration (with_strategy strat_all_in defaults))%Z)
    by (vm_compute; discriminate).
  destruct (summary_cards_of_one_way_strategies
              (with_strategy strat_all_in defaults) Hd Hp) as [A B].
  split; [exact (A eq_refl)|exact (B eq_refl)].
Defined.

(** ** Strategies under which the balance only grows *)

Lemma grown_covers (x r : Q) : 0 <= x -> 0 <= r -> x <= x * (1 + r).
Proof.
  intros Hx Hr. assert (G : 0 <= x * r) by (apply Qmult_le_0_compat; lra).
  assert (E : x * (1 + r) == x + x * r) by ring. rewrite E. lra.
Qed.

Lemma never_shrinks_sign_keeping (s : ReinvestmentStrategy) :
  never_shrinks s = true -> sign_keeping s = true.
Proof. destruct s; intros H; (reflexivity || discriminate H). Qed.

(** From a balance and a previous profit that are not negative, the
    strategies that add to the balance or let it grow leave an [endValue]
    of at least the balance. *)
Lemma apply_strategy_grows (cfg : Inputs) (fd : CalculationData.t)
      (startValue previousProfit : Q) :
  0 <= investmentAmount cfg ->
  0 <= rate cfg ->
  never_shrinks (reinvestmentStrategy cfg) = true ->
  (reinvestmentStrategy cfg = strat_level_up -> 0 <= levelUpAmount cfg) ->
  0 <= startValue -> 0 <= previousProfit ->
  let '(newCash, cashOut, endValue) :=
    apply_strategy cfg fd startValue previousProfit in
  startValue <= endValue.
Proof.
  intros HP Hr Hs Hl Hb Hq.
  assert (G : forall n, 0 <= n ->
                        startValue <= (startValue + n) * (1 + rate cfg)).
  { intros n Hn.
    pose proof (grown_covers (startValue + n) (rate cfg)) as G. lra. }
  unfold apply_strategy.
  destruct (reinvestmentStrategy cfg); cbv zeta; try discriminate Hs.
  - now apply G.
  - apply G. exact HP.
  - now apply grown_covers.
  - now apply G.
  - apply G. now apply Hl.
  - assert (H : 0 <= startValue * rate cfg / 2)
      by (apply Qdiv_nonneg; [apply Qmult_le_0_compat; lra|reflexivity]).
    set (half := startValue * rate cfg / 2) in *. lra.
Qed.

Lemma iteration_grows (cfg : Inputs) (fd : CalculationData.t) (k : nat) :
  0 <= investmentAmount cfg ->
  0 <= roiPercentage cfg ->
  never_shrinks (reinvestmentStrategy cfg) = true ->
  (reinvestmentStrategy cfg = strat_level_up -> 0 <= levelUpAmount cfg) ->
  ProjectionData.startValue (exact (iteration_at cfg fd k))
  <= ProjectionData.endValue (exact (iteration_at cfg fd k)).
Proof.
  intros HP Hroi Hs Hl.
  pose proof (rate_nonneg cfg Hroi) as Hr.
  destruct k as [|k].
  - rewrite iteration_at_0. cbn.
    assert (G : 0 <= investmentAmount cfg * rate cfg)
      by (apply Qmult_le_0_compat; lra).
    lra.
  - destruct (iteration_later cfg fd (S k)) as (nc & co & ev & A & E); [lia|].
    rewrite E.
    cbn [ProjectionData.startValue ProjectionData.endValue].
    destruct (state_after_nonneg cfg fd HP Hroi
                (never_shrinks_sign_keeping _ Hs) Hl (S k)) as [Hb Hq].
    pose proof (apply_strategy_grows cfg fd _ _ HP Hr Hs Hl Hb Hq) as G.
    rewrite A in G. exact G.
Qed.

(** X13. Under 2x, repeat, all-in, double-down, level-up and pay-yourself,
    with an investment amount and a return percentage that are not negative
    (and, for level-up, a level-up amount that is not negative), no period
    ends below the balance it started from, before and after rounding, and
    the end values of successive periods never go down. *)
Theorem balance_never_shrinks
        (cfg : Inputs) (fd : CalculationData.t) (k : nat) :
  0 <= investmentAmount cfg ->
  0 <= roiPercentage cfg ->
  never_shrinks (reinvestmentStrategy cfg) = true ->
  (reinvestmentStrategy cfg = strat_level_up -> 0 <= levelUpAmount cfg) ->
  let e := iteration_at cfg fd k in
  let next := iteration_at cfg fd (S k) in
  ProjectionData.startValue (exact e) <= ProjectionData.endValue (exact e)
  /\ ProjectionData.startValue (pushed e) <= ProjectionData.endValue (pushed e)
  /\ ProjectionData.endValue (exact e) <= ProjectionData.endValue (exact next)
  /\ ProjectionData.endValue (pushed e) <= ProjectionData.endValue (pushed next).
Proof.
  intros HP Hroi Hs Hl. cbv zeta.
  assert (R : forall j,
             pushed (iteration_at cfg fd j)
             = rounded (exact (iteration_at cfg fd j)))
    by (intros j; unfold iteration_at; apply pushed_rounded).
  pose proof (iteration_grows cfg fd k HP Hroi Hs Hl) as G.
  pose proof (iteration_grows cfg fd (S k) HP Hroi Hs Hl) as G'.
  assert (C : ProjectionData.startValue (exact (iteration_at cfg fd (S k)))
              = ProjectionData.endValue (exact (iteration_at cfg fd k))).
  { unfold iteration_at at 1. rewrite later_startValue by lia.
    now rewrite state_after_carries. }
  rewrite C in G'.
  split; [exact G|]. split.
  - destruct k as [|k].
    + rewrite iteration_at_0. cbn.
      apply (round_nonneg (investmentAmount cfg
                           + investmentAmount cfg * rate cfg)).
      rewrite iteration_at_0 in G. cbn in G. exact G.
    + rewrite R. cbn [rounded ProjectionData.startValue ProjectionData.endValue].
      now apply round_monotone.
  - split; [exact G'|].
    rewrite !R. cbn [rounded ProjectionData.endValue].
    now apply round_monotone.
Qed.

Lemma balance_never_shrinks_witness :
  ProjectionData.endValue
    (pushed (iteration_at (with_strategy strat_repeat defaults)
                          defaults_final 2))
  <= ProjectionData.endValue
       (pushed (iteration_at (with_strategy strat_repeat defaults)
                             defaults_final 3)).
Proof.
  assert (H1 : 0 <= investmentAmount (with_strategy strat_repeat defaults))
    by (vm_compute; discriminate).
  assert (H2 : 0 <= roiPercentage (with_strategy strat_repeat defaults))
    by (vm_compute; discriminate).
  assert (H4 : reinvestmentStrategy (with_strategy strat_repeat defaults)
               = strat_level_up ->
               0 <= levelUpAmount (with_strategy strat_repeat defaults))
    by discriminate.
  exact (proj2 (proj2 (proj2 (balance_never_shrinks
                                (with_strategy strat_repeat defaults)
                                defaults_final 2 H1 H2 eq_refl H4)))).
Defined.

(** ** Take-salary, period by period *)



(** ** What the projection does not depend on *)

Lemma for_loop_ext {S A : Type} (body1 body2 : Z -> S -> A * S) (n : nat) :
  (forall i st, body1 i st = body2 i st) ->
  forall i st, for_loop body1 n i st = for_loop body2 n i st.
Proof.
  intros H. induction n as [|n IH]; intros i st; simpl; [reflexivity|].
  rewrite H. destruct (body2 i st) as [a st']. now rewrite IH.
Qed.

(** The projection reads the final point of the series only through its
    currentValue. *)
Lemma projection_trace_final_value (cfg : Inputs)
      (fd1 fd2 : CalculationData.t) :
  CalculationData.currentValue fd1 = CalculationData.currentValue fd2
  \/ reinvestmentStrategy cfg <> strat_custom ->
  projection_trace cfg fd1 = projection_trace cfg fd2.
Proof.
  intros H. unfold projection_trace. apply for_loop_ext. intros i st.
  unfold projection_body.
  assert (A : apply_strategy cfg fd1 (balance st) (previousProfit st)
              = apply_strategy cfg fd2 (balance st) (previousProfit st)).
  { unfold apply_strategy.
    destruct (reinvestmentStrategy cfg); try reflexivity.
    destruct H as [H|H]; [|congruence].
    unfold customPerPeriodAmount. now rewrite H. }
  now rewrite A.
Qed.

Lemma calculations_showTotal (cfg : Inputs) (total : bool) :
  Forall2 same_figures
          (calculations (with_toggles total (enableInflation cfg) cfg))
          (calculations cfg).
Proof.
  unfold calculations. cbn [frequency with_toggles].
  destruct (frequency cfg); cbv zeta;
    apply (for_loop_related _ _ eq same_figures); try reflexivity;
    intros i s t <-; split; try reflexivity; repeat split.
Qed.

Lemma Forall2_last {A B : Type} (R : A -> B -> Prop)
      (l : list A) (m : list B) :
  Forall2 R l m ->
  forall a b, R a b -> R (last l a) (last m b).
Proof.
  induction 1 as [|x y l m Hxy _ IH]; intros a b Hab; [exact Hab|].
  rewrite !last_cons_default. apply IH. exact Hxy.
Qed.

Lemma projection_trace_toggles (cfg : Inputs) (total inflation : bool)
      (fd : CalculationData.t) :
  projection_trace (with_toggles total inflation cfg) fd
  = projection_trace cfg fd.
Proof. reflexivity. Qed.

Lemma finalData_showTotal (cfg : Inputs) (total : bool) :
  match finalData (with_toggles total (enableInflation cfg) cfg),
        finalData cfg with
  | Some a, Some b => same_figures a b
  | None, None => True
  | _, _ => False
  end.
Proof.
  unfold finalData. pose proof (calculations_showTotal cfg total) as F.
  destruct F as [|a b l m Hab F]; [exact I|].
  apply (Forall2_last _ _ _ F). exact Hab.
Qed.

(** X17. The showTotal toggle never changes the projection, and the
    inflation toggle changes it only under the custom strategy: the
    projection reads the historical series through the currentValue of its
    last point alone, and only in the custom case, while shield-value takes
    the inflation rate whether inflation is enabled or not. *)
Theorem toggles_and_the_projection
        (cfg : Inputs) (total inflation : bool) :
  futureProjections (with_toggles total (enableInflation cfg) cfg)
  = futureProjections cfg
  /\ (reinvestmentStrategy cfg <> strat_custom ->
      futureProjections (with_toggles total inflation cfg)
      = futureProjections cfg).
Proof.
  split.
  - pose proof (finalData_showTotal cfg total) as F.
    unfold futureProjections.
    destruct (finalData (with_toggles total (enableInflation cfg) cfg))
      as [a|], (finalData cfg) as [b|]; try contradiction; [|reflexivity].
    rewrite projection_trace_toggles. f_equal. f_equal.
    apply projection_trace_final_value. left. apply F.
  - intros Hs. unfold futureProjections.
    pose proof (finalData_none (with_toggles total inflation cfg)) as N1.
    pose proof (finalData_none cfg) as N2.
    rewrite calculations_empty in N1, N2.
    change (duration (with_toggles total inflation cfg))
      with (duration cfg) in N1.
    destruct (finalData (with_toggles total inflation cfg)) as [a|],
             (finalData cfg) as [b|].
    + rewrite projection_trace_toggles. f_equal. f_equal.
      apply projection_trace_final_value. now right.
    + assert (Some a = None) by (apply N1, N2; reflexivity). discriminate.
    + assert (Some b = None) by (apply N2, N1; reflexivity). discriminate.
    + reflexivity.
Qed.

Lemma toggles_and_the_projection_witness :
  futureProjections
    (with_toggles false true (with_strategy strat_shield_value defaults))
  = futureProjections (with_strategy strat_shield_value defaults).
Proof.
  apply (proj2 (toggles_and_the_projection
                  (with_strategy strat_shield_value defaults) false true)).
  discriminate.
Defined.

(** ** The two handlers *)

(** X18. Choosing a projection frequency leaves the historical series as it
    is and resets the projection to the default length of that frequency:
    with a duration that is not negative the projection then has 10 yearly,
    12 monthly, 4 weekly or 30 daily points. *)
Theorem frequency_change_resets_the_projection
        (cfg : Inputs) (freq : ProjectionFrequency) :
  (0 <= duration cfg)%Z ->
  calculations (handleProjectionFrequencyChange freq cfg) = calculations cfg
  /\ exists pts,
      futureProjections (handleProjectionFrequencyChange freq cfg) = Some pts
      /\ length pts = match freq with
                      | proj_yearly => 10
                      | proj_monthly => 12
                      | proj_weekly => 4
                      | proj_daily => 30
                      end%nat.
Proof.
  intros Hd. split; [reflexivity|].
  destruct (futureProjections (handleProjectionFrequencyChange freq cfg))
    as [pts|] eqn:E.
  - exists pts. split; [reflexivity|].
    rewrite (proj1 (projection_points _ _ E)). now destruct freq.
  - apply futureProjections_none in E.
    change (duration (handleProjectionFrequencyChange freq cfg))
      with (duration cfg) in E. lia.
Qed.

Lemma frequency_change_resets_the_projection_witness :
  exists pts,
    futureProjections (handleProjectionFrequencyChange proj_weekly defaults)
    = Some pts
    /\ length pts = 4%nat.
Proof.
  assert (H : (0 <= duration defaults)%Z) by (simpl; lia).
  exact (proj2 (frequency_change_resets_the_projection
                  defaults proj_weekly H)).
Defined.

(** X19. Entering a target always stores it and leaves the historical
    series alone.  Without a historical series (a negative duration) the
    percentage cell keeps its value; with one, the cell receives one
    hundred times the ratio of the per-period amount the custom strategy
    will use for the new target to the final value of the series, rounded
    to a tenth by Math.round(x * 10) / 10. *)
Theorem custom_target_change
        (target : Q) (cfg : Inputs) (customGainPercent : Q) :
  let cfg' := fst (handleCustomTargetChange target cfg customGainPercent) in
  let percent := snd (handleCustomTargetChange target cfg customGainPercent) in
  customTargetAmount cfg' = target
  /\ calculations cfg' = calculations cfg
  /\ ((duration cfg < 0)%Z -> percent = customGainPercent)
  /\ (forall fd,
         finalData cfg = Some fd ->
         percent
         = Math.round (customPerPeriodAmount cfg' fd
                       / CalculationData.currentValue fd * 100 * 10) / 10).
Proof.
  cbv zeta. unfold handleCustomTargetChange, finalData.
  destruct (calculations cfg) as [|d rest] eqn:E.
  - cbn [fst snd]. split; [reflexivity|]. split; [exact E|].
    split; [reflexivity|]. intros fd H. discriminate H.
  - cbn [fst snd]. split; [reflexivity|]. split; [exact E|]. split.
    + intros Hd. apply calculations_empty in Hd. congruence.
    + intros fd H. injection H as <-. reflexivity.
Qed.

Lemma custom_target_change_witness :
  snd (handleCustomTargetChange 20000 defaults 20)
  = Math.round
      (customPerPeriodAmount (setCustomTargetAmount 20000 defaults)
                             defaults_final
       / CalculationData.currentValue defaults_final * 100 * 10) / 10.
Proof.
  exact (proj2 (proj2 (proj2 (custom_target_change 20000 defaults 20)))
           defaults_final eq_refl).
Defined.
